(** * docker-hosts-updater: a shallow embedding of [docker_hosts_updater.py]

    The development follows the layout of the script:

    - [PyStr]      the string methods of the interpreter the script calls
                   ([strip], [lstrip], [split], [splitlines], [join], [int]);
    - [Interval]   [parse_time_interval];
    - [Synth]      the body of [get_docker_container_hosts] after decoding;
    - [Updater]    the file system, the container engine and the functions
                   [ensure_managed_section_exists], [get_docker_container_hosts]
                   and [update_hosts_file] in an error-and-state monad;
    - [Coordinator] [UPDATE_LOCK] and [update_hosts_file_async] as a
                   transition system.

    Texts are values of [string]; a character is an [ascii].  The tables of
    white space, line boundaries, digits and letter case are those of the
    code points below 128.  [int] refuses a literal of more than 4300
    digits, the default of the interpreter.  The content of a file is the
    sequence of its characters as stored.  Files are opened in text mode on
    a POSIX system: reading turns a carriage return followed by a line feed,
    and a carriage return alone, into one line feed ([universal_newlines]);
    writing stores a line feed as it is. *)

From Stdlib Require Import ZArith Ascii.
From stdpp Require Import base decidable option list gmap strings.

Local Open Scope Z_scope.
Set Warnings "-clear-no-such-hyp".

(* ===================================================================== *)
(** ** String methods *)
(* ===================================================================== *)

Module PyStr.

(** [str.isspace] on one character: tab, line feed, vertical tab, form
    feed, carriage return, the four separators 0x1c-0x1f and the blank. *)
Definition is_space (c : ascii) : bool :=
  match c with
  | "009" | "010" | "011" | "012" | "013"
  | "028" | "029" | "030" | "031" | " " => true
  | _ => false
  end%char.

(** Line boundaries of [str.splitlines] other than carriage return, which
    is treated apart because it pairs with a following line feed. *)
Definition is_linebreak (c : ascii) : bool :=
  match c with
  | "010" | "011" | "012" | "028" | "029" | "030" => true
  | _ => false
  end%char.

Definition CR : ascii := "013"%char.
Definition LF : ascii := "010"%char.

(** The text of one line feed, the ["\n"] of the script. *)
Definition NL : string := String LF "".

(** A carriage return followed by a line feed. *)
Definition CRLF : string := String CR NL.

Definition is_cr (c : ascii) : bool := bool_decide (c = CR).

(** What reading in text mode makes of the characters of a file
    ([newline=None]): a carriage return with the line feed after it, and a
    carriage return alone, come out as one line feed. *)
Fixpoint universal_newlines (s : string) : string :=
  match s with
  | String c s' =>
      if is_cr c then
        match s' with
        | String d s'' =>
            if bool_decide (d = LF)
            then String LF (universal_newlines s'')
            else String LF (universal_newlines s')
        | EmptyString => NL
        end
      else String c (universal_newlines s')
  | EmptyString => EmptyString
  end.

(** [s.lstrip(chars)] for a predicate on characters. *)
Fixpoint lstrip_with (p : ascii → bool) (s : string) : string :=
  match s with
  | String c s' => if p c then lstrip_with p s' else s
  | EmptyString => EmptyString
  end.

(** [s.rstrip(chars)]: a character is dropped when all that follows it is
    dropped too. *)
Fixpoint rstrip_with (p : ascii → bool) (s : string) : string :=
  match s with
  | String c s' =>
      match rstrip_with p s' with
      | EmptyString => if p c then EmptyString else String c EmptyString
      | r => String c r
      end
  | EmptyString => EmptyString
  end.

Definition strip (s : string) : string :=
  rstrip_with is_space (lstrip_with is_space s).

(** [s.lstrip("/")] *)
Definition lstrip_slash (s : string) : string :=
  lstrip_with (λ c, bool_decide (c = "/"%char)) s.

(** [s.split()]: the maximal runs of characters that are not white space. *)
Fixpoint split_ws_aux (cur : string) (s : string) : list string :=
  match s with
  | String c s' =>
      if is_space c
      then match cur with
           | EmptyString => split_ws_aux EmptyString s'
           | _ => cur :: split_ws_aux EmptyString s'
           end
      else split_ws_aux (cur +:+ String c EmptyString) s'
  | EmptyString =>
      match cur with EmptyString => [] | _ => [cur] end
  end.

Definition split_ws (s : string) : list string := split_ws_aux EmptyString s.

(** [s.split(".")[0]]: the part before the first dot, all of [s] when it
    has none. *)
Fixpoint before_dot (s : string) : string :=
  match s with
  | String c s' =>
      if bool_decide (c = "."%char) then EmptyString else String c (before_dot s')
  | EmptyString => EmptyString
  end.

(** [s.splitlines(keepends=True)], with the line being read in [cur]. *)
Fixpoint splitlines_aux (cur : string) (s : string) : list string :=
  match s with
  | String c s' =>
      if bool_decide (c = CR) then
        match s' with
        | String d s'' =>
            if bool_decide (d = LF)
            then (cur +:+ String CR (String LF EmptyString)) :: splitlines_aux EmptyString s''
            else (cur +:+ String CR EmptyString) :: splitlines_aux EmptyString s'
        | EmptyString => [cur +:+ String CR EmptyString]
        end
      else if is_linebreak c
      then (cur +:+ String c EmptyString) :: splitlines_aux EmptyString s'
      else splitlines_aux (cur +:+ String c EmptyString) s'
  | EmptyString =>
      match cur with EmptyString => [] | _ => [cur] end
  end.

Definition splitlines (s : string) : list string := splitlines_aux EmptyString s.

(** [sep.join(l)] *)
Fixpoint str_join (sep : string) (l : list string) : string :=
  match l with
  | [] => EmptyString
  | [x] => x
  | x :: l' => x +:+ sep +:+ str_join sep l'
  end.

(** [f.writelines(l)], also ["".join(l)]. *)
Fixpoint concat_lines (l : list string) : string :=
  match l with
  | [] => EmptyString
  | x :: l' => x +:+ concat_lines l'
  end.

(** [sub in s] *)
Fixpoint contains (sub s : string) : bool :=
  String.prefix sub s
  || match s with
     | String _ s' => contains sub s'
     | EmptyString => false
     end.

(** [c.lower()] *)
Definition lower (c : ascii) : ascii :=
  let n := N_of_ascii c in
  if ((65 <=? n) && (n <=? 90))%N then ascii_of_N (n + 32) else c.

(** The value of a decimal digit, [None] for another character. *)
Definition digit_val (c : ascii) : option Z :=
  let n := Z.of_N (N_of_ascii c) in
  if (48 <=? n) && (n <=? 57) then Some (n - 48) else None.

(** White space that [int] skips around a literal of characters below 128:
    tab, line feed, vertical tab, form feed, carriage return and the blank.
    The separators 0x1c-0x1f, which [strip] removes, are not skipped. *)
Definition is_c_space (c : ascii) : bool :=
  match c with
  | "009" | "010" | "011" | "012" | "013" | " " => true
  | _ => false
  end%char.

(** [sys.get_int_max_str_digits()] as the interpreter starts. *)
Definition MAX_STR_DIGITS : Z := 4300.

(** The number of digits of a literal; underscores do not count. *)
Fixpoint count_digits (s : string) : Z :=
  match s with
  | String c s' =>
      match digit_val c with
      | Some _ => 1 + count_digits s'
      | None => count_digits s'
      end
  | EmptyString => 0
  end.

(** The digits of a decimal literal after its first digit: a digit, or one
    underscore followed by a digit. *)
Fixpoint int_digits (acc : Z) (s : string) : option Z :=
  match s with
  | String c s' =>
      if bool_decide (c = "_"%char) then
        match s' with
        | String d s'' =>
            match digit_val d with
            | Some v => int_digits (acc * 10 + v) s''
            | None => None
            end
        | EmptyString => None
        end
      else
        match digit_val c with
        | Some v => int_digits (acc * 10 + v) s'
        | None => None
        end
  | EmptyString => Some acc
  end.

(** A literal without sign: it starts with a digit and has no more than
    [MAX_STR_DIGITS] digits. *)
Definition int_unsigned (s : string) : option Z :=
  match s with
  | String c s' =>
      match digit_val c with
      | Some v =>
          if count_digits s <=? MAX_STR_DIGITS then int_digits v s' else None
      | None => None
      end
  | EmptyString => None
  end.

(** [int(s)] in base ten: [None] stands for [ValueError]. *)
Definition int (s : string) : option Z :=
  match rstrip_with is_c_space (lstrip_with is_c_space s) with
  | String "+" s' => int_unsigned s'
  | String "-" s' => Z.opp <$> int_unsigned s'
  | t => int_unsigned t
  end.

(** [s[-1]] and [s[:-1]] of a text that is not empty. *)
Fixpoint last_char (s : string) : option ascii :=
  match s with
  | String c EmptyString => Some c
  | String _ s' => last_char s'
  | EmptyString => None
  end.

Fixpoint but_last (s : string) : string :=
  match s with
  | String _ EmptyString => EmptyString
  | String c s' => String c (but_last s')
  | EmptyString => EmptyString
  end.

End PyStr.

(* ===================================================================== *)
(** ** Exceptions and results *)
(* ===================================================================== *)

Inductive exn : Type :=
  | ValueError
  | PermissionError
  | FileNotFoundError
  | StopIteration
  | JSONDecodeError
  | TimeoutExpired
  | CalledProcessError
  | OtherError.

Inductive outcome (A : Type) : Type :=
  | Return (a : A)
  | Raise (e : exn).
Arguments Return {A} a.
Arguments Raise {A} e.

(* ===================================================================== *)
(** ** parse_time_interval *)
(* ===================================================================== *)

Module Interval.
Import PyStr.

(** [units = {"s": 1, "m": 60, "h": 3600, "d": 86400}] *)
Definition units (u : ascii) : option Z :=
  match u with
  | "s" => Some 1
  | "m" => Some 60
  | "h" => Some 3600
  | "d" => Some 86400
  | _ => None
  end%char.

Definition parse_time_interval (interval_str : string) : outcome Z :=
  if (String.length interval_str <? 2)%nat then Raise ValueError
  else
    match last_char interval_str with
    | None => Raise ValueError
    | Some c =>
        let unit := lower c in
        match units unit with
        | None => Raise ValueError
        | Some k =>
            match int (but_last interval_str) with
            | None => Raise ValueError
            | Some value =>
                if value <=? 0 then Raise ValueError
                else Return (value * k)
            end
        end
    end.

End Interval.


(** The reading of the specification: a positive integer written in decimal
    digits, followed by one of the unit letters [s], [m], [h], [d]. *)
Module IntervalSpec.
Import PyStr Interval.

Fixpoint decimal_acc (acc : Z) (s : string) : Z :=
  match s with
  | String c s' =>
      match digit_val c with
      | Some v => decimal_acc (acc * 10 + v) s'
      | None => acc
      end
  | EmptyString => acc
  end.

Definition decimal (s : string) : Z := decimal_acc 0 s.

Fixpoint only_digits (s : string) : bool :=
  match s with
  | String c s' => bool_decide (is_Some (digit_val c)) && only_digits s'
  | EmptyString => true
  end.

Definition is_numeral (s : string) : bool :=
  bool_decide (s ≠ EmptyString) && only_digits s.

(** The text of [n] times the character [c]. *)
Fixpoint repeat_char (n : nat) (c : ascii) : string :=
  match n with
  | O => EmptyString
  | S n' => String c (repeat_char n' c)
  end.

Definition spec_interval (s : string) : option Z :=
  match last_char s with
  | Some u =>
      match units u with
      | Some k =>
          if is_numeral (but_last s) && (0 <? decimal (but_last s))
          then Some (decimal (but_last s) * k)
          else None
      | None => None
      end
  | None => None
  end.

End IntervalSpec.

(* ===================================================================== *)
(** ** The entry synthesizer: the loops of [get_docker_container_hosts] *)
(* ===================================================================== *)

Module Synth.
Import PyStr.

(** One value of the [Networks] object of an inspected container, with the
    defaults of the two [get] calls applied: an absent address is the empty
    text, absent or null aliases are the empty list. *)
Record network_info : Type := {
  IPAddress : string;
  Aliases : list string
}.

(** One element of the decoded inspect output: [Name], [Config.Hostname]
    and [NetworkSettings.Networks], the latter in the order of the object. *)
Record container : Type := {
  Name : string;
  Hostname : string;
  Networks : list (string * network_info)
}.

(** What one appended entry holds before it is formatted. *)
Record host_entry : Type := {
  ipAddress : string;
  names : list string
}.

Record state : Type := {
  host_entries : list host_entry;
  seen_ips : gset string
}.

(** Lines 149-163: the container name, the hostname when it differs, the
    aliases not yet present. *)
Definition add_alias (hostnames : list string) (alias : string) : list string :=
  if bool_decide (alias ≠ EmptyString) && bool_decide (alias ∉ hostnames)
  then hostnames ++ [alias]
  else hostnames.

Definition candidate_names (container_name hostname : string)
    (aliases : list string) : list string :=
  let hostnames :=
    if bool_decide (container_name ≠ EmptyString) then [container_name] else [] in
  let hostnames :=
    if bool_decide (hostname ≠ EmptyString)
       && bool_decide (hostname ≠ container_name)
    then hostnames ++ [hostname]
    else hostnames in
  fold_left add_alias aliases hostnames.

(** Lines 167-172: each name cut at its first dot, then the same with the
    domain appended. *)
Definition add_names (domain : string) (all_names : list string)
    (name : string) : list string :=
  let clean_name := before_dot name in
  all_names ++ [clean_name; clean_name +:+ "." +:+ domain].

Definition all_names (domain : string) (hostnames : list string) : list string :=
  fold_left (add_names domain) hostnames [].

(** Lines 175-178. *)
Definition add_unique (unique_names : list string) (name : string) : list string :=
  if bool_decide (name ∈ unique_names) then unique_names
  else unique_names ++ [name].

Definition unique_names (all_names : list string) : list string :=
  fold_left add_unique all_names [].

(** Line 180. *)
Definition render (e : host_entry) : string :=
  ipAddress e +:+ " " +:+ str_join " " (names e).

Definition entry_of (domain ip_address : string) (hostnames : list string)
    : host_entry :=
  {| ipAddress := ip_address;
     names := unique_names (all_names domain hostnames) |}.

(** The body of the loop over the networks of one container. *)
Definition process_network (domain container_name hostname : string)
    (st : state) (net : string * network_info) : state :=
  let ip_address := IPAddress net.2 in
  let aliases := Aliases net.2 in
  if bool_decide (ip_address = EmptyString)
     || bool_decide (ip_address ∈ seen_ips st)
  then st
  else
    let hostnames := candidate_names container_name hostname aliases in
    match hostnames with
    | [] => st
    | _ :: _ =>
        {| host_entries := host_entries st ++ [entry_of domain ip_address hostnames];
           seen_ips := seen_ips st ∪ {[ ip_address ]} |}
    end.

(** The body of the loop over the containers. *)
Definition process_container (domain : string) (st : state) (c : container)
    : state :=
  let container_name := lstrip_slash (Name c) in
  let hostname := Hostname c in
  let networks := Networks c in
  match networks with
  | [] => st
  | _ :: _ => fold_left (process_network domain container_name hostname) networks st
  end.

Definition initial : state := {| host_entries := []; seen_ips := ∅ |}.

(** Lines 129-185 on decoded containers.  The script formats an entry when
    it appends it; here the entry is kept as a record and [render] is applied
    when the list is handed out. *)
Definition synthesize (domain : string) (containers : list container)
    : list host_entry :=
  host_entries (fold_left (process_container domain) containers initial).

(** One (container, network) pair, as the inner loop sees it. *)
Record attachment : Type := {
  att_container_name : string;
  att_hostname : string;
  att_ip : string;
  att_aliases : list string
}.

Definition attachments_of (c : container) : list attachment :=
  map (λ net : string * network_info,
         {| att_container_name := lstrip_slash (Name c);
            att_hostname := Hostname c;
            att_ip := IPAddress net.2;
            att_aliases := Aliases net.2 |})
      (Networks c).

(** The attachments in container order, then network order. *)
Definition attachments (containers : list container) : list attachment :=
  containers ≫= attachments_of.

Definition att_candidates (a : attachment) : list string :=
  candidate_names (att_container_name a) (att_hostname a) (att_aliases a).

Definition att_entry (domain : string) (a : attachment) : host_entry :=
  entry_of domain (att_ip a) (att_candidates a).

Definition as_network (a : attachment) : string * network_info :=
  (EmptyString, {| IPAddress := att_ip a; Aliases := att_aliases a |}).

(** One turn of the inner loop on an attachment. *)
Definition process_attachment (domain : string) (st : state) (a : attachment)
    : state :=
  process_network domain (att_container_name a) (att_hostname a) st (as_network a).

End Synth.

(* ===================================================================== *)
(** ** Files, the container engine and the three blocking functions *)
(* ===================================================================== *)

Module Updater.
Import PyStr Synth.

Definition HOSTS_FILE : string := "/etc/hosts".
Definition BEGIN_BLOCK : string := "# BEGIN DOCKER CONTAINERS".
Definition END_BLOCK : string := "# END DOCKER CONTAINERS".
Definition TEMP_DIR : string := "/tmp".

(** What a call of [subprocess.run] gives: a completed process with its
    return code and standard output, or an exception ([TimeoutExpired],
    [FileNotFoundError], ...). *)
Inductive run_result (A : Type) : Type :=
  | Exited (returncode : Z) (stdout : A)
  | Failed (e : exn).
Arguments Exited {A} returncode stdout.
Arguments Failed {A} e.

(** The standard output of [docker container inspect] as [json.loads] sees
    it: text that is no JSON, the list of containers, or JSON of another
    shape on which an attribute access of the loop raises. *)
Inductive inspect_output : Type :=
  | Undecodable
  | Inventory (containers : list container)
  | Malformed.

Record engine : Type := {
  container_ls : run_result string;
  container_inspect : list string → run_result inspect_output
}.

(** The surroundings of one call: the configured domain, the engine, the
    name [tempfile] picks under [TEMP_DIR], and for every file operation the
    exception it raises, if any. *)
Record env : Type := {
  DOMAIN_BASE : string;
  docker : engine;
  temp_name : string;
  read_fault : option exn;
  append_fault : option exn;
  temp_fault : option exn;
  chmod_fault : option exn;
  mv_fault : option exn
}.

(** The effects on the outside, in the order they happen. *)
Inductive action : Type :=
  | ReadText (path : string)
  | AppendText (path text : string)
  | TempWrite (dir path content : string)
  | Chmod (mode path : string)
  | Mv (src dst : string)
  | Unlink (path : string)
  | DockerLs
  | DockerInspect (ids : list string).

Record world : Type := {
  files : gmap string string;
  log : list action
}.

Definition M (A : Type) : Type := world → outcome A * world.

Definition ret {A} (a : A) : M A := λ w, (Return a, w).

Definition raise {A} (e : exn) : M A := λ w, (Raise e, w).

Definition bind {A B} (m : M A) (k : A → M B) : M B :=
  λ w, match m w with
       | (Return a, w') => k a w'
       | (Raise e, w') => (Raise e, w')
       end.

(** [try: m  except ... as e: h e] *)
Definition try_except {A} (m : M A) (h : exn → M A) : M A :=
  λ w, match m w with
       | (Return a, w') => (Return a, w')
       | (Raise e, w') => h e w'
       end.

#[global] Instance M_ret : MRet M := @ret.
#[global] Instance M_bind : MBind M := λ A B k m, bind m k.

Definition record (a : action) (w : world) : world :=
  {| files := files w; log := log w ++ [a] |}.

Definition guard_fault (f : option exn) : M unit :=
  match f with
  | Some e => raise e
  | None => ret tt
  end.

(** [Path(path).exists()] *)
Definition path_exists (path : string) : M bool :=
  λ w, (Return (bool_decide (is_Some (files w !! path))), w).

(** [Path(path).read_text()]: the characters of the file, read in text
    mode. *)
Definition read_text (e : env) (path : string) : M string :=
  λ w, let w' := record (ReadText path) w in
       match read_fault e with
       | Some x => (Raise x, w')
       | None =>
           match files w !! path with
           | Some stored => (Return (universal_newlines stored), w')
           | None => (Raise FileNotFoundError, w')
           end
       end.

(** [with Path(path).open("a") as f: f.write(text)]: the text is put after
    the characters the file holds, whatever they are. *)
Definition append_text (e : env) (path text : string) : M unit :=
  λ w, match append_fault e with
       | Some x => (Raise x, w)
       | None =>
           let old := default EmptyString (files w !! path) in
           (Return tt,
            record (AppendText path text)
              {| files := <[path := old +:+ text]> (files w); log := log w |})
       end.

(** [with tempfile.NamedTemporaryFile(mode="w", delete=False, dir=dir) as f:
    f.writelines(lines); temp_path = f.name]: the new file holds the lines
    one after the other, character for character. *)
Definition named_temporary_file (e : env) (dir : string) (lines : list string)
    : M string :=
  λ w, match temp_fault e with
       | Some x => (Raise x, w)
       | None =>
           let temp_path := dir +:+ "/" +:+ temp_name e in
           let content := concat_lines lines in
           (Return temp_path,
            record (TempWrite dir temp_path content)
              {| files := <[temp_path := content]> (files w); log := log w |})
       end.

(** [subprocess.run(["chmod", mode, path], check=True, timeout=5)] *)
Definition run_chmod (e : env) (mode path : string) : M unit :=
  λ w, let w' := record (Chmod mode path) w in
       match chmod_fault e with
       | Some x => (Raise x, w')
       | None => (Return tt, w')
       end.

(** [subprocess.run(["mv", src, dst], check=True, timeout=5)] *)
Definition run_mv (e : env) (src dst : string) : M unit :=
  λ w, let w' := record (Mv src dst) w in
       match mv_fault e with
       | Some x => (Raise x, w')
       | None =>
           match files w !! src with
           | Some content =>
               (Return tt,
                {| files := <[dst := content]> (delete src (files w));
                   log := log w' |})
           | None => (Raise CalledProcessError, w')
           end
       end.

(** [Path(path).unlink(missing_ok=True)] *)
Definition unlink (path : string) : M unit :=
  λ w, (Return tt,
        record (Unlink path) {| files := delete path (files w); log := log w |}).

Definition run_docker_ls (e : env) : M (Z * string) :=
  λ w, let w' := record DockerLs w in
       match container_ls (docker e) with
       | Exited rc out => (Return (rc, out), w')
       | Failed x => (Raise x, w')
       end.

Definition run_docker_inspect (e : env) (ids : list string)
    : M (Z * inspect_output) :=
  λ w, let w' := record (DockerInspect ids) w in
       match container_inspect (docker e) ids with
       | Exited rc out => (Return (rc, out), w')
       | Failed x => (Raise x, w')
       end.

(** [json.loads(result.stdout)] followed by the loops over its value. *)
Definition json_loads (out : inspect_output) : M (list container) :=
  match out with
  | Undecodable => raise JSONDecodeError
  | Inventory containers => ret containers
  | Malformed => raise OtherError
  end.

(** Lines 77-98. *)
Definition ensure_managed_section_exists (e : env) : M bool :=
  try_except
    (present ← path_exists HOSTS_FILE ;
     if negb present then ret false
     else
       contents ← read_text e HOSTS_FILE ;
       if negb (contains BEGIN_BLOCK contents) || negb (contains END_BLOCK contents)
       then
         append_text e HOSTS_FILE (NL +:+ BEGIN_BLOCK +:+ NL +:+ END_BLOCK +:+ NL) ;;
         ret true
       else ret true)
    (λ _, ret false).

(** Lines 101-195. *)
Definition get_docker_container_hosts (e : env) : M (list string) :=
  try_except
    (result ← run_docker_ls e ;
     if bool_decide (result.1 ≠ 0) then ret []
     else
       let container_ids := split_ws (strip result.2) in
       match container_ids with
       | [] => ret []
       | _ :: _ =>
           result ← run_docker_inspect e container_ids ;
           if bool_decide (result.1 ≠ 0) then ret []
           else
             containers ← json_loads result.2 ;
             ret (map render (synthesize (DOMAIN_BASE e) containers))
       end)
    (λ _, ret []).

(** [next(i for i, line in enumerate(lines) if line.strip() == block)];
    [None] stands for [StopIteration]. *)
Definition is_marker (block line : string) : bool :=
  bool_decide (strip line = block).

Fixpoint find_index (p : string → bool) (lines : list string) : option nat :=
  match lines with
  | [] => None
  | line :: lines' => if p line then Some O else S <$> find_index p lines'
  end.

(** Lines 218-222. *)
Definition build_new_lines (lines : list string) (start_idx end_idx : nat)
    (docker_entries : list string) : list string :=
  take (S start_idx) lines
  ++ map (λ entry, entry +:+ NL) docker_entries
  ++ drop end_idx lines.

(** Lines 198-247.  The inner handler is the part of the two [except]
    clauses that runs once [temp_path] is bound; before that the clauses
    only return [False]. *)
Definition update_hosts_file (e : env) : M bool :=
  try_except
    (contents ← read_text e HOSTS_FILE ;
     let lines := splitlines contents in
     match find_index (is_marker BEGIN_BLOCK) lines with
     | None => ret false
     | Some start_idx =>
         match find_index (is_marker END_BLOCK) lines with
         | None => ret false
         | Some end_idx =>
             docker_entries ← get_docker_container_hosts e ;
             let new_lines := build_new_lines lines start_idx end_idx docker_entries in
             temp_path ← named_temporary_file e TEMP_DIR new_lines ;
             try_except
               (run_chmod e "644" temp_path ;;
                run_mv e temp_path HOSTS_FILE ;;
                ret true)
               (λ x, match x with
                     | PermissionError => ret false
                     | _ => unlink temp_path ;; ret false
                     end)
         end
     end)
    (λ _, ret false).

(** [os.path.dirname] of a path with at least two components: the text
    before its last slash. *)
Fixpoint dirname (path : string) : string :=
  match path with
  | String c path' =>
      if contains "/" path' then String c (dirname path') else EmptyString
  | EmptyString => EmptyString
  end.

(** The entries a call of [get_docker_container_hosts] returns; they depend
    on the engine and the domain only. *)
Definition nothing : world := {| files := ∅; log := [] |}.

Definition docker_entries (e : env) : list string :=
  match (get_docker_container_hosts e nothing).1 with
  | Return entries => entries
  | Raise _ => []
  end.

(** The failures of the inventory reader: the engine cannot be reached or
    times out (an exception of [subprocess.run] or a return code other than
    zero, for either command), or the inspect output cannot be decoded. *)
Definition inspect_fails (r : run_result inspect_output) : bool :=
  match r with
  | Failed _ => true
  | Exited rc out =>
      bool_decide (rc ≠ 0)
      || match out with Inventory _ => false | _ => true end
  end.

Definition engine_fails (d : engine) : bool :=
  match container_ls d with
  | Failed _ => true
  | Exited rc out =>
      bool_decide (rc ≠ 0)
      || match split_ws (strip out) with
         | [] => false
         | ids => inspect_fails (container_inspect d ids)
         end
  end.

(** The number of lines the writer would take for the marker [block]. *)
Definition count_markers (block : string) (lines : list string) : nat :=
  length (filter (λ line, is_marker block line = true) lines).

(** A text of lines, each closed by a line feed. *)
Definition unlines (l : list string) : string :=
  concat_lines (map (λ line, line +:+ NL) l).

(** The lines the writer gets from the characters of the hosts file. *)
Definition lines_read (stored : string) : list string :=
  splitlines (universal_newlines stored).

(** The invariant of the managed section on the lines of a file: one
    begin-marker line, one end-marker line, the begin marker first. *)
Definition well_formed (lines : list string) : bool :=
  bool_decide (count_markers BEGIN_BLOCK lines = 1%nat)
  && bool_decide (count_markers END_BLOCK lines = 1%nat)
  && match find_index (is_marker BEGIN_BLOCK) lines,
           find_index (is_marker END_BLOCK) lines with
     | Some i, Some j => bool_decide (i < j)%nat
     | _, _ => false
     end.

End Updater.

(* ===================================================================== *)
(** ** The coordinator: [UPDATE_LOCK] and [update_hosts_file_async] *)
(* ===================================================================== *)

(** The event loop runs one coroutine at a time, so the callers of
    [update_hosts_file_async] are a transition system.  [UPDATE_LOCK] is the
    lock of the [asyncio] library: [acquire] takes a free lock that nobody
    waits for and otherwise appends the caller to the queue of waiters;
    [release] frees the lock and wakes the first waiter, which takes the lock
    when it runs next.  Cancellation at shutdown is left out. *)
Module Coordinator.

(** The callers: the first update of [main], [monitor_docker_events] and
    [periodic_update]. *)
Inductive task : Type :=
  | InitialUpdate
  | EventsTask
  | PeriodicTask.

#[global] Instance task_eq_dec : EqDecision task.
Proof. solve_decision. Defined.

Inductive event : Type :=
  | Line
  | Trigger (t : task)
  | Resume (t : task)
  | Finish (t : task).

Record state : Type := {
  locked : bool;
  waiters : list task;
  in_flight : list task;
  started : list task;
  unread_lines : nat
}.

Definition idle : state :=
  {| locked := false; waiters := []; in_flight := []; started := [];
     unread_lines := 0 |}.

(** The body of [async with UPDATE_LOCK] is entered: the pipeline of [t]
    runs in the executor. *)
Definition enter (t : task) (s : state) : state :=
  {| locked := true;
     waiters := waiters s;
     in_flight := in_flight s ++ [t];
     started := started s ++ [t];
     unread_lines := unread_lines s |}.

(** [UPDATE_LOCK.acquire()] by [t]. *)
Definition acquire (t : task) (s : state) : state :=
  if negb (locked s) && bool_decide (waiters s = [])
  then enter t s
  else {| locked := locked s;
          waiters := waiters s ++ [t];
          in_flight := in_flight s;
          started := started s;
          unread_lines := unread_lines s |}.

(** [async for line in process.stdout] hands one line to the loop body. *)
Definition take_line (t : task) (s : state) : option state :=
  match t with
  | EventsTask =>
      match unread_lines s with
      | O => None
      | S n =>
          Some {| locked := locked s; waiters := waiters s;
                  in_flight := in_flight s; started := started s;
                  unread_lines := n |}
      end
  | _ => Some s
  end.

Definition step (s : state) (ev : event) : option state :=
  match ev with
  | Line =>
      Some {| locked := locked s; waiters := waiters s;
              in_flight := in_flight s; started := started s;
              unread_lines := S (unread_lines s) |}
  | Trigger t =>
      if bool_decide (t ∈ waiters s) || bool_decide (t ∈ in_flight s)
      then None
      else acquire t <$> take_line t s
  | Resume t =>
      match locked s, waiters s with
      | false, w :: ws =>
          if bool_decide (w = t)
          then Some (enter t {| locked := locked s; waiters := ws;
                                in_flight := in_flight s; started := started s;
                                unread_lines := unread_lines s |})
          else None
      | _, _ => None
      end
  | Finish t =>
      if bool_decide (t ∈ in_flight s)
      then Some {| locked := false;
                   waiters := waiters s;
                   in_flight := filter (λ u, u ≠ t) (in_flight s);
                   started := started s;
                   unread_lines := unread_lines s |}
      else None
  end.

Fixpoint run (s : state) (evs : list event) : option state :=
  match evs with
  | [] => Some s
  | ev :: evs' =>
      match step s ev with
      | Some s' => run s' evs'
      | None => None
      end
  end.

Definition is_trigger (ev : event) : bool :=
  match ev with Trigger _ => true | _ => false end.

Definition is_line (ev : event) : bool :=
  match ev with Line => true | _ => false end.

Definition is_events_trigger (ev : event) : bool :=
  match ev with Trigger EventsTask => true | _ => false end.

Definition count (p : event → bool) (evs : list event) : nat :=
  length (filter (λ ev, p ev = true) evs).

(** The lock is held exactly while one pipeline runs. *)
Definition lock_inv (s : state) : Prop :=
  (locked s = true ∧ ∃ t, in_flight s = [t])
  ∨ (locked s = false ∧ in_flight s = []).

End Coordinator.

(* ===================================================================== *)
(** ** Start-up: the domain base of [main] *)
(* ===================================================================== *)

Module Startup.
Import PyStr.

(** Lines 356-362 of [main]: [args.domain] and [os.getenv] are [None] or a
    text, and an empty text is false in a condition. *)
Definition resolve_domain (domain_arg env_var : option string) : string :=
  match domain_arg with
  | Some (String c d) => strip (String c d)
  | _ =>
      match env_var with
      | Some (String c d) => strip (String c d)
      | _ => "base.domain"
      end
  end.

End Startup.

(* ===================================================================== *)
(** ** The validation script: [verify_hosts_entries] *)
(* ===================================================================== *)

Module Validation.
Import PyStr.

Definition test_names : list string :=
  ["test-nginx"; "test-redis"; "test-postgres"; "base.domain"].

(** Lines 114-149 of [test_updater.py], on the pair that [run_command]
    returns for the [grep] of the managed section. *)
Definition verify_hosts_entries (ok : bool) (output : string) : bool :=
  if negb ok then false
  else
    let found := filter (λ name, contains name output = true) test_names in
    (3 <=? length found)%nat.

End Validation.

(* ===================================================================== *)
(** ** Auxiliary notions for the properties *)
(* ===================================================================== *)

Module Aux.
Import PyStr Coordinator.

(** The callers of [update_hosts_file_async], in the order of their calls. *)
Definition triggered (evs : list event) : list task :=
  omap (λ ev, match ev with Trigger t => Some t | _ => None end) evs.

(** No character of the text satisfies [p]. *)
Fixpoint free_of (p : ascii → bool) (s : string) : bool :=
  match s with
  | String c s' => negb (p c) && free_of p s'
  | EmptyString => true
  end.

(** A word of a line of the hosts file: not empty, no white space. *)
Definition is_word (s : string) : bool :=
  bool_decide (s ≠ EmptyString) && free_of is_space s.

(** A character at which [splitlines] ends a line. *)
Definition ends_line (c : ascii) : bool :=
  bool_decide (c = CR) || is_linebreak c.

End Aux.

(** Lists that differ in the nesting of [++] only. *)
Ltac reassoc := repeat (rewrite <- app_assoc; simpl); done.

(* ===================================================================== *)
(** * Properties *)
(* ===================================================================== *)

(** ** Texts *)

Section TextFacts.
Import PyStr.

Lemma str_app_cons a s t : String a s +:+ t = String a (s +:+ t).
Proof. reflexivity. Qed.

Lemma str_app_nil_l t : EmptyString +:+ t = t.
Proof. reflexivity. Qed.

Lemma str_app_nil_r s : s +:+ EmptyString = s.
Proof. induction s as [|a s IH]; [done|]. by rewrite str_app_cons, IH. Qed.

Lemma str_app_assoc s t u : (s +:+ t) +:+ u = s +:+ t +:+ u.
Proof. induction s as [|a s IH]; [done|]. by rewrite !str_app_cons, IH. Qed.

Lemma str_length_app s t :
  String.length (s +:+ t) = (String.length s + String.length t)%nat.
Proof. induction s as [|a s IH]; [done|]. rewrite str_app_cons. simpl. by rewrite IH. Qed.

Lemma concat_lines_app l k :
  concat_lines (l ++ k) = concat_lines l +:+ concat_lines k.
Proof.
  induction l as [|x l IH]; [done|]. simpl.
  by rewrite IH, str_app_assoc.
Qed.

Lemma concat_lines_cons x l : concat_lines (x :: l) = x +:+ concat_lines l.
Proof. reflexivity. Qed.

Lemma concat_last_line cur :
  concat_lines (match cur with EmptyString => [] | String _ _ => [cur] end) = cur.
Proof. destruct cur; [done|]. simpl. by rewrite str_app_nil_r. Qed.

Lemma last_char_snoc s c : last_char (s +:+ String c EmptyString) = Some c.
Proof.
  induction s as [|a s IH]; [done|].
  change (String a s +:+ String c "") with (String a (s +:+ String c "")).
  simpl. rewrite IH. by destruct s.
Qed.

Lemma but_last_snoc s c : but_last (s +:+ String c EmptyString) = s.
Proof.
  induction s as [|a s IH]; [done|].
  change (String a s +:+ String c "") with (String a (s +:+ String c "")).
  simpl. rewrite IH. by destruct s.
Qed.

Lemma snoc_last s :
  s ≠ EmptyString →
  ∃ c, last_char s = Some c ∧ s = but_last s +:+ String c EmptyString.
Proof.
  induction s as [|a s IH]; [done|]. intros _.
  destruct s as [|b s].
  - by exists a.
  - destruct IH as (c & Hc & Hs); [done|]. exists c.
    split; [exact Hc|].
    change (but_last (String a (String b s)))
      with (String a (but_last (String b s))).
    change (String a (but_last (String b s)) +:+ String c "")
      with (String a (but_last (String b s) +:+ String c "")).
    by rewrite <- Hs.
Qed.

Lemma length_snoc s c :
  String.length (s +:+ String c EmptyString) = S (String.length s).
Proof.
  induction s as [|a s IH]; [done|].
  change (String a s +:+ String c "") with (String a (s +:+ String c "")).
  simpl. by rewrite IH.
Qed.

Lemma str_snoc_inj s t x y :
  s +:+ String x EmptyString = t +:+ String y EmptyString → s = t ∧ x = y.
Proof.
  intros H. split.
  - by rewrite <- (but_last_snoc s x), H, but_last_snoc.
  - pose proof (last_char_snoc s x) as Hx. rewrite H, last_char_snoc in Hx.
    by injection Hx.
Qed.

Lemma last_char_app s t :
  t ≠ EmptyString → last_char (s +:+ t) = last_char t.
Proof.
  intros Ht. induction s as [|a s IH]; [done|].
  rewrite str_app_cons. simpl. rewrite IH.
  destruct (s +:+ t) eqn:E; [|done].
  destruct s; [|done]. by rewrite str_app_nil_l in E.
Qed.

End TextFacts.

(** ** Interval parsing *)

Section IntervalFacts.
Import PyStr Interval IntervalSpec.

Lemma digit_not_space c : is_Some (digit_val c) → is_c_space c = false.
Proof.
  destruct c as [[] [] [] [] [] [] [] []]; simpl; intros [v Hv]; done.
Qed.

Lemma space_not_digit c : is_c_space c = true → digit_val c = None.
Proof.
  destruct (digit_val c) as [v|] eqn:E; [|done].
  rewrite digit_not_space by eauto. done.
Qed.

Lemma lstrip_no_space s :
  only_digits s = true → lstrip_with is_c_space s = s.
Proof.
  destruct s as [|c s]; [done|]. simpl.
  intros [Hc _]%andb_prop. apply bool_decide_eq_true in Hc.
  by rewrite (digit_not_space c Hc).
Qed.

Lemma rstrip_no_space s :
  only_digits s = true → rstrip_with is_c_space s = s.
Proof.
  induction s as [|c s IH]; [done|]. simpl.
  intros [Hc Hs]%andb_prop. apply bool_decide_eq_true in Hc.
  rewrite (IH Hs). destruct s; [|done].
  by rewrite (digit_not_space c Hc).
Qed.

Lemma int_digits_decimal acc s :
  only_digits s = true → int_digits acc s = Some (decimal_acc acc s).
Proof.
  revert acc. induction s as [|c s IH]; intros acc; [done|]. simpl.
  intros [Hc Hs]%andb_prop. apply bool_decide_eq_true in Hc.
  destruct Hc as [v Hv]. rewrite Hv.
  rewrite bool_decide_eq_false_2; [by apply IH|].
  intros ->. done.
Qed.

(** *** The number of digits *)

Lemma count_digits_cons c s :
  count_digits (String c s)
  = match digit_val c with Some _ => 1 + count_digits s | None => count_digits s end.
Proof. reflexivity. Qed.

Lemma count_digits_numeral s :
  only_digits s = true → count_digits s = Z.of_nat (String.length s).
Proof.
  induction s as [|c s IH]; [done|].
  intros [Hc Hs]%andb_prop. apply bool_decide_eq_true in Hc.
  destruct Hc as [v Hv]. rewrite count_digits_cons, Hv, (IH Hs).
  simpl String.length. lia.
Qed.

Lemma count_digits_lstrip s :
  count_digits (lstrip_with is_c_space s) = count_digits s.
Proof.
  induction s as [|c s IH]; [done|]. simpl lstrip_with.
  destruct (is_c_space c) eqn:Hc; [|done].
  by rewrite IH, count_digits_cons, (space_not_digit c Hc).
Qed.

Lemma count_digits_rstrip s :
  count_digits (rstrip_with is_c_space s) = count_digits s.
Proof.
  induction s as [|c s IH]; [done|]. simpl rstrip_with.
  destruct (rstrip_with is_c_space s) as [|d r] eqn:E.
  - destruct (is_c_space c) eqn:Hc.
    + by rewrite count_digits_cons, (space_not_digit c Hc), <- IH.
    + by rewrite !count_digits_cons, <- IH.
  - by rewrite (count_digits_cons c s), (count_digits_cons c), IH.
Qed.

Lemma int_unsigned_cap s :
  MAX_STR_DIGITS < count_digits s → int_unsigned s = None.
Proof.
  intros H. destruct s as [|c s]; [done|]. unfold int_unsigned.
  destruct (digit_val c); [|done].
  destruct (Z.leb_spec (count_digits (String c s)) MAX_STR_DIGITS); [lia|done].
Qed.

(** A literal of more than [MAX_STR_DIGITS] digits is refused, whatever
    stands around the digits. *)
Lemma int_cap s : MAX_STR_DIGITS < count_digits s → int s = None.
Proof.
  intros H. unfold int.
  rewrite <- count_digits_lstrip, <- count_digits_rstrip in H.
  destruct (rstrip_with is_c_space (lstrip_with is_c_space s)) as [|c t];
    [done|].
  assert (int_unsigned (String c t) = None) as Hu by (by apply int_unsigned_cap).
  assert (digit_val c = None → int_unsigned t = None) as Ht.
  { intros Hc. apply int_unsigned_cap. by rewrite count_digits_cons, Hc in H. }
  destruct c as [[] [] [] [] [] [] [] []]; try exact Hu; by rewrite Ht.
Qed.

Lemma int_numeral s :
  is_numeral s = true → (String.length s ≤ 4300)%nat → int s = Some (decimal s).
Proof.
  intros [Hne Hs]%andb_prop Hlen. apply bool_decide_eq_true in Hne.
  unfold int. rewrite (lstrip_no_space s Hs), (rstrip_no_space s Hs).
  pose proof (count_digits_numeral s Hs) as Hcount.
  destruct s as [|c s]; [done|]. pose proof Hs as Hs'. simpl in Hs.
  apply andb_prop in Hs as [Hc Hs]. apply bool_decide_eq_true in Hc.
  destruct Hc as [v Hv].
  assert (int_unsigned (String c s) = Some (decimal (String c s))) as Hu.
  { unfold int_unsigned, decimal. rewrite Hv.
    destruct (Z.leb_spec (count_digits (String c s)) MAX_STR_DIGITS) as [_|Hgt].
    - simpl. rewrite Hv. by apply int_digits_decimal.
    - unfold MAX_STR_DIGITS in Hgt. lia. }
  destruct c as [[] [] [] [] [] [] [] []]; try done.
Qed.

Lemma units_lower u k : units u = Some k → units (lower u) = Some k.
Proof.
  destruct u as [[] [] [] [] [] [] [] []]; simpl; intros H; try done.
Qed.



Lemma numeral_not_empty s : is_numeral s = true → s ≠ EmptyString.
Proof. intros [Hne _]%andb_prop. by apply bool_decide_eq_true in Hne. Qed.

Lemma length_two s c :
  s ≠ EmptyString → (String.length (s +:+ String c EmptyString) <? 2)%nat = false.
Proof.
  intros Hs. rewrite length_snoc. destruct s; [done|]. simpl.
  apply Nat.ltb_ge. lia.
Qed.

(** The success of [parse_time_interval], read off its branches. *)
Lemma parse_time_interval_inv s r :
  parse_time_interval s = Return r ↔
  ∃ c k v, last_char s = Some c ∧ units (lower c) = Some k
           ∧ int (but_last s) = Some v ∧ 0 < v ∧ r = v * k.
Proof.
  unfold parse_time_interval. split.
  - destruct (String.length s <? 2)%nat; [done|].
    destruct (last_char s) as [c|] eqn:Hc; [|done].
    simpl. destruct (units (lower c)) as [k|] eqn:Hk; [|done].
    destruct (int (but_last s)) as [v|] eqn:Hv; [|done].
    destruct (Z.leb_spec v 0); [done|].
    intros [= <-]. by exists c, k, v.
  - intros (c & k & v & Hc & Hk & Hv & Hpos & ->).
    assert (s ≠ EmptyString) as Hs by (by intros ->).
    destruct (snoc_last s Hs) as (c' & Hc' & Heq).
    assert (but_last s ≠ EmptyString) as Hb.
    { intros Hb. rewrite Hb in Hv. done. }
    rewrite Heq at 1. rewrite (length_two _ _ Hb).
    rewrite Hc. simpl. rewrite Hk, Hv.
    destruct (Z.leb_spec v 0); [lia|done].
Qed.

Lemma parse_time_interval_total s :
  (∃ r, parse_time_interval s = Return r)
  ∨ parse_time_interval s = Raise ValueError.
Proof.
  unfold parse_time_interval.
  destruct (String.length s <? 2)%nat; [by right|].
  destruct (last_char s) as [c|]; [|by right].
  simpl. destruct (units (lower c)) as [k|]; [|by right].
  destruct (int (but_last s)) as [v|]; [|by right].
  destruct (v <=? 0); [by right|]. left. eauto.
Qed.

Lemma parse_time_interval_numeral s r :
  spec_interval s = Some r → (String.length s ≤ 4301)%nat →
  parse_time_interval s = Return r.
Proof.
  unfold spec_interval. intros H Hlen. apply parse_time_interval_inv.
  destruct (last_char s) as [c|] eqn:Hc; [|done].
  destruct (units c) as [k|] eqn:Hk; [|done].
  destruct (is_numeral (but_last s)) eqn:Hn; [|done].
  destruct (Z.ltb_spec 0 (decimal (but_last s))); [|done].
  simpl in H. injection H as <-.
  exists c, k, (decimal (but_last s)).
  split_and!; [done|by apply units_lower| |lia|done].
  apply int_numeral; [done|].
  assert (s ≠ EmptyString) as Hs by (by intros ->).
  destruct (snoc_last s Hs) as (c' & _ & Heq).
  rewrite Heq, length_snoc in Hlen. lia.
Qed.

Lemma parse_time_interval_cap s :
  MAX_STR_DIGITS < count_digits (but_last s) →
  parse_time_interval s = Raise ValueError.
Proof.
  intros H. unfold parse_time_interval.
  destruct (String.length s <? 2)%nat; [done|].
  destruct (last_char s) as [c|]; [|done].
  cbv zeta. destruct (units (lower c)); [|done].
  by rewrite (int_cap _ H).
Qed.

(** The unit letter is looked up after [lower()]: an upper-case unit is
    accepted, which the reading "an integer followed by one of s/m/h/d"
    excludes.  And a positive integer of 4301 digits followed by [s] is
    refused, because [int] refuses its digits. *)
Lemma parse_time_interval_upper_unit :
  spec_interval "5M" = None
  ∧ parse_time_interval "5M" = Return 300
  ∧ parse_time_interval " +1_0 H" = Return 36000
  ∧ is_numeral (repeat_char 4301 "1") = true
  ∧ 0 < decimal (repeat_char 4301 "1")
  ∧ parse_time_interval (repeat_char 4301 "1" +:+ "s") = Raise ValueError.
Proof. by vm_compute. Qed.

(** C8 (amended): the eight examples of the specification hold; a positive
    decimal numeral of at most 4300 digits followed by [s], [m], [h] or [d]
    yields the numeral times the length of the unit, and more than 4300
    digits are refused; a text is accepted exactly when its last character,
    lowered, is a unit letter and [int] accepts what precedes it with a
    positive value; every other text raises [ValueError].  [int] skips the
    blank, tab, line feed, vertical tab, form feed and carriage return around
    the number, not the separator 0x1c. *)
Theorem parse_time_interval_correct :
  parse_time_interval "30s" = Return 30
  ∧ parse_time_interval "5m" = Return 300
  ∧ parse_time_interval "1h" = Return 3600
  ∧ parse_time_interval "1d" = Return 86400
  ∧ parse_time_interval "0s" = Raise ValueError
  ∧ parse_time_interval "abc" = Raise ValueError
  ∧ parse_time_interval "5x" = Raise ValueError
  ∧ parse_time_interval "" = Raise ValueError
  ∧ parse_time_interval (String "009" "5 s") = Return 5
  ∧ parse_time_interval (String "028" "5s") = Raise ValueError
  ∧ (∀ s r, spec_interval s = Some r → (String.length s ≤ 4301)%nat →
       parse_time_interval s = Return r)
  ∧ (∀ s, MAX_STR_DIGITS < count_digits (but_last s) →
       parse_time_interval s = Raise ValueError)
  ∧ (∀ s r, parse_time_interval s = Return r ↔
       ∃ c k v, last_char s = Some c ∧ units (lower c) = Some k
                ∧ int (but_last s) = Some v ∧ 0 < v ∧ r = v * k)
  ∧ (∀ s, (∃ r, parse_time_interval s = Return r)
          ∨ parse_time_interval s = Raise ValueError).
Proof.
  split_and!.
  1-10: by vm_compute.
  - intros s r. apply parse_time_interval_numeral.
  - apply parse_time_interval_cap.
  - apply parse_time_interval_inv.
  - apply parse_time_interval_total.
Qed.

End IntervalFacts.

(** ** The entry synthesizer *)

Section SynthFacts.
Import PyStr Synth.

(** *** Removing duplicates *)

Lemma unique_names_snoc l x :
  unique_names (l ++ [x]) = add_unique (unique_names l) x.
Proof. unfold unique_names. by rewrite fold_left_app. Qed.

Lemma elem_of_add_unique acc x y : y ∈ add_unique acc x ↔ y ∈ acc ∨ y = x.
Proof.
  unfold add_unique. case_bool_decide as Hx.
  - split; [by left|]. intros [?| ->]; done.
  - rewrite elem_of_app, list_elem_of_singleton. done.
Qed.

Lemma elem_of_unique_names l x : x ∈ unique_names l ↔ x ∈ l.
Proof.
  induction l as [|y l IH] using rev_ind.
  - done.
  - rewrite unique_names_snoc, elem_of_add_unique, IH.
    rewrite elem_of_app, list_elem_of_singleton. done.
Qed.

Lemma NoDup_unique_names l : NoDup (unique_names l).
Proof.
  induction l as [|y l IH] using rev_ind.
  - constructor.
  - rewrite unique_names_snoc. unfold add_unique.
    case_bool_decide as Hy; [done|].
    apply NoDup_app. split_and!; [done| |apply NoDup_singleton].
    intros x Hx ->%list_elem_of_singleton. done.
Qed.

(** Two names of the result stand in the order of their first appearances
    in the input. *)
Lemma unique_names_order l p x q y r :
  unique_names l = p ++ x :: q ++ y :: r →
  ∃ a b c, l = a ++ x :: b ++ y :: c ∧ (x ∉ a) ∧ (y ∉ a ++ x :: b).
Proof.
  revert p q r. induction l as [|z l IH] using rev_ind; intros p q r.
  - intros H. by destruct p.
  - rewrite unique_names_snoc. unfold add_unique.
    case_bool_decide as Hz.
    + intros (a & b & c & -> & Hx & Hy)%IH.
      exists a, b, (c ++ [z]). split; [|done]. reassoc.
    + destruct r as [|w r _] using rev_ind.
      * replace (p ++ x :: q ++ [y]) with ((p ++ x :: q) ++ [y])
          by reassoc.
        intros [Hl ->]%app_inj_tail.
        assert (x ∈ l) as Hx.
        { apply elem_of_unique_names. rewrite Hl. set_solver. }
        apply list_elem_of_split_l in Hx as (a & b & -> & Hx).
        exists a, b, []. split_and!; [reassoc|done|].
        by rewrite <- elem_of_unique_names.
      * replace (p ++ x :: q ++ y :: r ++ [w])
          with ((p ++ x :: q ++ y :: r) ++ [w])
          by reassoc.
        intros [(a & b & c & -> & Hx & Hy)%IH ->]%app_inj_tail.
        exists a, b, (c ++ [w]). split; [|done]. reassoc.
Qed.

(** *** The candidate names *)

Lemma add_alias_prefix hs alias : ∃ t, add_alias hs alias = hs ++ t.
Proof.
  unfold add_alias. destruct (_ && _); [by eexists|].
  exists []. by rewrite app_nil_r.
Qed.

Lemma fold_add_alias_prefix aliases hs :
  ∃ t, fold_left add_alias aliases hs = hs ++ t.
Proof.
  revert hs. induction aliases as [|alias aliases IH]; intros hs; simpl.
  - exists []. by rewrite app_nil_r.
  - destruct (add_alias_prefix hs alias) as [t ->].
    destruct (IH (hs ++ t)) as [t' ->]. exists (t ++ t').
    by rewrite app_assoc.
Qed.

Lemma fold_add_alias_nil aliases :
  fold_left add_alias aliases [] = [] ↔ Forall (λ alias, alias = EmptyString) aliases.
Proof.
  induction aliases as [|alias aliases IH]; simpl.
  - split; [constructor|done].
  - destruct (decide (alias = EmptyString)) as [->|Ha].
    + change (add_alias [] EmptyString) with (@nil string).
      rewrite IH. split; [by constructor|]. intros H. by inversion H.
    + assert (add_alias [] alias = [alias]) as ->.
      { unfold add_alias. rewrite !bool_decide_eq_true_2; [done| |done].
        apply not_elem_of_nil. }
      destruct (fold_add_alias_prefix aliases [alias]) as [t ->].
      split; [done|]. intros H. by inversion H.
Qed.

(** The candidate list is empty exactly for an empty container name, an
    empty hostname and no alias other than the empty text. *)
Lemma candidate_names_nil container_name hostname aliases :
  candidate_names container_name hostname aliases = [] ↔
  container_name = EmptyString ∧ hostname = EmptyString
  ∧ Forall (λ alias, alias = EmptyString) aliases.
Proof.
  unfold candidate_names. cbv zeta.
  destruct (decide (container_name = EmptyString)) as [->|Hn].
  - change (bool_decide (EmptyString ≠ EmptyString)) with false. cbv iota.
    destruct (decide (hostname = EmptyString)) as [->|Hh].
    + change (bool_decide (EmptyString ≠ EmptyString)) with false. simpl.
      rewrite fold_add_alias_nil. split; [done|]. by intros (_ & _ & H).
    + rewrite !bool_decide_eq_true_2 by done. simpl.
      destruct (fold_add_alias_prefix aliases [hostname]) as [t ->].
      split; [done|]. by intros (_ & ? & _).
  - rewrite (bool_decide_eq_true_2 (container_name ≠ EmptyString)) by done.
    split; [|by intros [? _]].
    match goal with |- fold_left _ _ ?h = _ → _ =>
      destruct (fold_add_alias_prefix aliases h) as [t ->] end.
    destruct (_ && _); done.
Qed.

(** *** One turn of the inner loop *)

Lemma process_network_skip domain container_name hostname st net :
  IPAddress net.2 = EmptyString
  ∨ IPAddress net.2 ∈ seen_ips st
  ∨ candidate_names container_name hostname (Aliases net.2) = [] →
  process_network domain container_name hostname st net = st.
Proof.
  unfold process_network. intros [H|[H|H]].
  - by rewrite bool_decide_eq_true_2.
  - rewrite (bool_decide_eq_true_2 (_ ∈ _)) by done. by rewrite orb_true_r.
  - rewrite H. by destruct (_ || _).
Qed.

Lemma process_network_add domain container_name hostname st net :
  IPAddress net.2 ≠ EmptyString →
  IPAddress net.2 ∉ seen_ips st →
  candidate_names container_name hostname (Aliases net.2) ≠ [] →
  process_network domain container_name hostname st net =
  {| host_entries :=
       host_entries st
       ++ [entry_of domain (IPAddress net.2)
             (candidate_names container_name hostname (Aliases net.2))];
     seen_ips := seen_ips st ∪ {[ IPAddress net.2 ]} |}.
Proof.
  unfold process_network. intros H1 H2 H3.
  rewrite !bool_decide_eq_false_2 by done. simpl.
  by destruct (candidate_names _ _ _).
Qed.

Lemma process_attachment_skip domain st a :
  att_ip a = EmptyString ∨ att_ip a ∈ seen_ips st ∨ att_candidates a = [] →
  process_attachment domain st a = st.
Proof. intros H. by apply process_network_skip. Qed.

Lemma process_attachment_add domain st a :
  att_ip a ≠ EmptyString → att_ip a ∉ seen_ips st → att_candidates a ≠ [] →
  process_attachment domain st a =
  {| host_entries := host_entries st ++ [att_entry domain a];
     seen_ips := seen_ips st ∪ {[ att_ip a ]} |}.
Proof. intros H1 H2 H3. by apply process_network_add. Qed.

Lemma process_attachment_cases domain st a :
  (process_attachment domain st a = st
   ∧ (att_ip a = EmptyString ∨ att_ip a ∈ seen_ips st ∨ att_candidates a = []))
  ∨ (process_attachment domain st a =
       {| host_entries := host_entries st ++ [att_entry domain a];
          seen_ips := seen_ips st ∪ {[ att_ip a ]} |}
     ∧ att_ip a ≠ EmptyString ∧ (att_ip a ∉ seen_ips st) ∧ att_candidates a ≠ []).
Proof.
  destruct (decide (att_ip a = EmptyString)) as [H1|H1].
  { left. split; [|by left]. apply process_attachment_skip. by left. }
  destruct (decide (att_ip a ∈ seen_ips st)) as [H2|H2].
  { left. split; [|by right; left]. apply process_attachment_skip. by right; left. }
  destruct (decide (att_candidates a = [])) as [H3|H3].
  { left. split; [|by right; right]. apply process_attachment_skip. by right; right. }
  right. split; [|done]. by apply process_attachment_add.
Qed.

(** *** The two loops as one loop over the attachments *)

Lemma process_container_attachments domain st c :
  process_container domain st c
  = fold_left (process_attachment domain) (attachments_of c) st.
Proof.
  unfold process_container, attachments_of.
  destruct (Networks c) as [|net nets]; [done|].
  generalize (net :: nets). intros l. revert st.
  induction l as [|n l IH]; intros st; [done|]. simpl. by rewrite <- IH.
Qed.

Lemma fold_containers_attachments domain containers st :
  fold_left (process_container domain) containers st
  = fold_left (process_attachment domain) (attachments containers) st.
Proof.
  unfold attachments. revert st.
  induction containers as [|c cs IH]; intros st; [done|].
  rewrite bind_cons, fold_left_app. simpl.
  by rewrite IH, process_container_attachments.
Qed.

(** *** What a run of the loop appends *)

(** From any state, the loop appends entries whose addresses are new,
    pairwise distinct and recorded in [seen_ips]; each comes from an
    attachment of the run that has an address and candidate names. *)
Lemma fold_attachments_spec domain l st :
  ∃ new,
    host_entries (fold_left (process_attachment domain) l st)
      = host_entries st ++ new
    ∧ seen_ips (fold_left (process_attachment domain) l st)
      = seen_ips st ∪ list_to_set (ipAddress <$> new)
    ∧ NoDup (ipAddress <$> new)
    ∧ ∀ e, e ∈ new →
        (ipAddress e ∉ seen_ips st)
        ∧ ∃ a, a ∈ l ∧ e = att_entry domain a
               ∧ att_ip a ≠ EmptyString ∧ att_candidates a ≠ [].
Proof.
  revert st. induction l as [|a l IH]; intros st; simpl.
  - exists []. rewrite app_nil_r. split_and!; [done|set_solver|constructor|].
    intros e He. by apply not_elem_of_nil in He.
  - destruct (process_attachment_cases domain st a)
      as [[-> _]|(-> & Hip & Hseen & Hcand)].
    + destruct (IH st) as (new & H1 & H2 & H3 & H4).
      exists new. split_and!; [done..|].
      intros e [? (b & ? & ?)]%H4. split; [done|].
      exists b. split; [by right|done].
    + destruct (IH {| host_entries := host_entries st ++ [att_entry domain a];
                      seen_ips := seen_ips st ∪ {[ att_ip a ]} |})
        as (new & H1 & H2 & H3 & H4).
      simpl in *.
      exists (att_entry domain a :: new). split_and!.
      * rewrite H1. by rewrite <- app_assoc.
      * rewrite H2. simpl. set_solver.
      * simpl. constructor; [|done].
        intros (e & He1 & [He2 _]%H4)%list_elem_of_fmap.
        apply He2. simpl in He1. set_solver.
      * intros e [->|He]%elem_of_cons.
        -- split; [done|]. exists a. split; [by left|done].
        -- destruct (H4 e He) as [He2 (b & ? & ?)].
           split; [set_solver|]. exists b. split; [by right|done].
Qed.

Lemma synthesize_attachments domain containers :
  synthesize domain containers
  = host_entries (fold_left (process_attachment domain) (attachments containers) initial).
Proof. unfold synthesize. by rewrite fold_containers_attachments. Qed.

Lemma filter_none {A} (P : A → Prop) `{∀ x, Decision (P x)} (l : list A) :
  (∀ x, x ∈ l → ¬ P x) → filter P l = [].
Proof.
  induction l as [|x l IH]; intros Hl; [done|].
  rewrite filter_cons_False by (apply Hl; by left).
  apply IH. intros y Hy. apply Hl. by right.
Qed.

(** C5: the addresses of the synthesized entries are pairwise distinct; the
    names of one entry hold no text twice, are those emitted for the
    attachment the entry comes from, and stand in the order of their first
    appearance there. *)
Theorem synthesize_unique domain containers :
  NoDup (ipAddress <$> synthesize domain containers)
  ∧ ∀ e, e ∈ synthesize domain containers →
      NoDup (names e)
      ∧ ∃ a, a ∈ attachments containers
          ∧ ipAddress e = att_ip a
          ∧ (∀ x, x ∈ names e ↔ x ∈ all_names domain (att_candidates a))
          ∧ (∀ p x q y r, names e = p ++ x :: q ++ y :: r →
               ∃ u v w, all_names domain (att_candidates a)
                          = u ++ x :: v ++ y :: w
                        ∧ (x ∉ u) ∧ (y ∉ u ++ x :: v)).
Proof.
  rewrite synthesize_attachments.
  destruct (fold_attachments_spec domain (attachments containers) initial)
    as (new & -> & _ & Hnd & Hnew).
  simpl. split; [done|].
  intros e (_ & a & Ha & -> & _)%Hnew. simpl.
  split; [apply NoDup_unique_names|].
  exists a. split_and!; [done|done| |].
  - intros x. apply elem_of_unique_names.
  - intros p x q y r. apply unique_names_order.
Qed.

(** The first attachment of an address does not win when it has no
    candidate name: the entry is built from the second one.  Attachments
    without an address, as on the host network, share the empty address and
    yield no entry at all. *)
Lemma first_attachment_without_names :
  let first := {| Name := "/"; Hostname := "";
                  Networks := [("bridge", {| IPAddress := "10.0.0.5"; Aliases := [] |})] |} in
  let second := {| Name := "/web"; Hostname := "";
                   Networks := [("bridge", {| IPAddress := "10.0.0.5"; Aliases := [] |})] |} in
  let proxy := {| Name := "/proxy"; Hostname := "node1";
                  Networks := [("host", {| IPAddress := ""; Aliases := [] |})] |} in
  let agent := {| Name := "/agent"; Hostname := "node1";
                  Networks := [("host", {| IPAddress := ""; Aliases := [] |})] |} in
  (att_ip <$> attachments [first; second]) = ["10.0.0.5"; "10.0.0.5"]
  ∧ (att_entry "base.domain" <$> attachments [first; second])
    = [ {| ipAddress := "10.0.0.5"; names := [] |};
        {| ipAddress := "10.0.0.5"; names := ["web"; "web.base.domain"] |} ]
  ∧ synthesize "base.domain" [first; second]
    = [ {| ipAddress := "10.0.0.5"; names := ["web"; "web.base.domain"] |} ]
  ∧ (att_ip <$> attachments [proxy; agent]) = [""; ""]
  ∧ synthesize "base.domain" [proxy; agent] = [].
Proof. by vm_compute. Qed.

(** C6 (amended): among the attachments, in container order and then
    network order, that carry one address that is not empty, the first with a
    candidate name claims the address; the only entry of that address is the
    one built from it, whatever follows. *)
Theorem first_claim_wins domain containers before a after :
  attachments containers = before ++ a :: after →
  att_ip a ≠ EmptyString →
  att_candidates a ≠ [] →
  (∀ b, b ∈ before → att_ip b = att_ip a → att_candidates b = []) →
  filter (λ e, ipAddress e = att_ip a) (synthesize domain containers)
  = [att_entry domain a].
Proof.
  intros Hsplit Hip Hcand Hbefore.
  rewrite synthesize_attachments, Hsplit, fold_left_app. simpl.
  destruct (fold_attachments_spec domain before initial)
    as (new1 & Hl1 & Hs1 & _ & Hnew1).
  set (st1 := fold_left (process_attachment domain) before initial) in *.
  simpl in Hl1, Hs1.
  assert (∀ e, e ∈ new1 → ipAddress e ≠ att_ip a) as Hno1.
  { intros e (_ & b & Hb & -> & _ & Hcb)%Hnew1 Heq. simpl in Heq.
    by apply Hcb, Hbefore. }
  assert (att_ip a ∉ seen_ips st1) as Hfresh.
  { rewrite Hs1. intros [H|H]%elem_of_union; [set_solver|].
    apply elem_of_list_to_set, list_elem_of_fmap in H as (e & He1 & He2).
    by apply (Hno1 e). }
  rewrite (process_attachment_add domain st1 a) by done.
  match goal with |- context [fold_left _ after ?st] =>
    destruct (fold_attachments_spec domain after st)
      as (new2 & -> & _ & _ & Hnew2) end.
  simpl in *. rewrite Hl1. rewrite !filter_app.
  rewrite (filter_none _ new1) by done.
  rewrite (filter_none _ new2).
  2:{ intros e [He _]%Hnew2 Heq. apply He. rewrite Heq. set_solver. }
  rewrite filter_cons_True by done. by rewrite filter_nil.
Qed.

Lemma first_claim_wins_witness :
  let c1 := {| Name := "/test-nginx"; Hostname := "webserver";
               Networks := [("bridge", {| IPAddress := "10.0.0.5"; Aliases := [] |})] |} in
  let c2 := {| Name := "/test-redis"; Hostname := "cache";
               Networks := [("bridge", {| IPAddress := "10.0.0.5"; Aliases := ["db"] |})] |} in
  filter (λ e, ipAddress e = "10.0.0.5") (synthesize "base.domain" [c1; c2])
  = [ {| ipAddress := "10.0.0.5";
         names := ["test-nginx"; "test-nginx.base.domain";
                   "webserver"; "webserver.base.domain"] |} ].
Proof.
  intros c1 c2.
  apply (first_claim_wins "base.domain" [c1; c2] []
           {| att_container_name := "test-nginx"; att_hostname := "webserver";
              att_ip := "10.0.0.5"; att_aliases := [] |}
           [ {| att_container_name := "test-redis"; att_hostname := "cache";
                att_ip := "10.0.0.5"; att_aliases := ["db"] |} ]).
  - reflexivity.
  - discriminate.
  - discriminate.
  - intros b Hb. by apply not_elem_of_nil in Hb.
Defined.

(** The loop does not see an attachment without candidate names. *)
Lemma fold_attachments_unnamed domain before a after st :
  att_candidates a = [] →
  fold_left (process_attachment domain) (before ++ a :: after) st
  = fold_left (process_attachment domain) (before ++ after) st.
Proof.
  intros Hnil. rewrite !fold_left_app. simpl.
  by rewrite (process_attachment_skip domain _ a) by (by right; right).
Qed.

(** The only entry of an address is built from the first attachment that
    has the address and a candidate name. *)
Lemma fold_attachments_first domain before a after :
  att_ip a ≠ EmptyString →
  att_candidates a ≠ [] →
  (∀ b, b ∈ before → att_ip b = att_ip a → att_candidates b = []) →
  filter (λ e, ipAddress e = att_ip a)
    (host_entries
       (fold_left (process_attachment domain) (before ++ a :: after) initial))
  = [att_entry domain a].
Proof.
  intros Hip Hcand Hbefore. rewrite fold_left_app. simpl.
  destruct (fold_attachments_spec domain before initial)
    as (new1 & Hl1 & Hs1 & _ & Hnew1).
  set (st1 := fold_left (process_attachment domain) before initial) in *.
  simpl in Hl1, Hs1.
  assert (∀ e, e ∈ new1 → ipAddress e ≠ att_ip a) as Hno1.
  { intros e (_ & b & Hb & -> & _ & Hcb)%Hnew1 Heq. simpl in Heq.
    by apply Hcb, Hbefore. }
  assert (att_ip a ∉ seen_ips st1) as Hfresh.
  { rewrite Hs1. intros [H|H]%elem_of_union; [set_solver|].
    apply elem_of_list_to_set, list_elem_of_fmap in H as (e & He1 & He2).
    by apply (Hno1 e). }
  rewrite (process_attachment_add domain st1 a) by done.
  match goal with |- context [fold_left _ after ?st] =>
    destruct (fold_attachments_spec domain after st)
      as (new2 & -> & _ & _ & Hnew2) end.
  simpl in *. rewrite Hl1. rewrite !filter_app.
  rewrite (filter_none _ new1) by done.
  rewrite (filter_none _ new2).
  2:{ intros e [He _]%Hnew2 Heq. apply He. rewrite Heq. set_solver. }
  rewrite filter_cons_True by done. by rewrite filter_nil.
Qed.

(** C9: take an attachment of the inventory whose address is not empty and
    not yet claimed (no earlier attachment of that address has a candidate
    name) and whose candidate list is empty, which means an empty container
    name, an empty hostname and no alias but empty ones.  The synthesizer
    returns what it returns for the attachments without it: it emits no
    entry for it, and every entry of its address is built from a later
    attachment.  The address is not claimed: the first later attachment of
    that address with a candidate name yields the one entry of the
    address. *)
Theorem empty_candidates_claim_nothing domain containers before a after :
  attachments containers = before ++ a :: after →
  att_ip a ≠ EmptyString →
  (∀ b, b ∈ before → att_ip b = att_ip a → att_candidates b = []) →
  att_candidates a = [] →
  att_container_name a = EmptyString ∧ att_hostname a = EmptyString
  ∧ Forall (λ alias, alias = EmptyString) (att_aliases a)
  ∧ synthesize domain containers
    = host_entries
        (fold_left (process_attachment domain) (before ++ after) initial)
  ∧ (∀ e, e ∈ synthesize domain containers → ipAddress e = att_ip a →
       ∃ b, b ∈ after ∧ att_ip b = att_ip a ∧ att_candidates b ≠ []
            ∧ e = att_entry domain b)
  ∧ (∀ mid b rest,
       after = mid ++ b :: rest →
       att_ip b = att_ip a →
       att_candidates b ≠ [] →
       (∀ m, m ∈ mid → att_ip m = att_ip a → att_candidates m = []) →
       filter (λ e, ipAddress e = att_ip a) (synthesize domain containers)
       = [att_entry domain b]).
Proof.
  intros Hsplit Hip Hbefore Hnil.
  pose proof Hnil as (? & ? & ?)%candidate_names_nil.
  assert (synthesize domain containers
          = host_entries
              (fold_left (process_attachment domain) (before ++ after) initial))
    as Hwithout.
  { rewrite synthesize_attachments, Hsplit. by rewrite fold_attachments_unnamed. }
  split_and!; [done..| |].
  - rewrite Hwithout. intros e He Heq.
    destruct (fold_attachments_spec domain (before ++ after) initial)
      as (new & Hl & _ & _ & Hnew).
    rewrite Hl in He. simpl in He.
    destruct (Hnew e He) as (_ & b & Hb & -> & _ & Hcb).
    simpl in Heq. exists b.
    apply elem_of_app in Hb as [Hb|Hb]; [|done].
    by specialize (Hbefore b Hb Heq).
  - intros mid b rest -> Hsame Hcand Hmid.
    rewrite synthesize_attachments, Hsplit, <- Hsame.
    replace (before ++ a :: mid ++ b :: rest)
      with ((before ++ a :: mid) ++ b :: rest) by (by rewrite <- app_assoc).
    apply fold_attachments_first; [by rewrite Hsame|done|].
    intros m [Hm|[->|Hm]%elem_of_cons]%elem_of_app Heq.
    + apply Hbefore; [done|congruence].
    + done.
    + apply Hmid; [done|congruence].
Qed.

Lemma empty_candidates_claim_nothing_witness :
  let unnamed := {| Name := "/"; Hostname := "";
                    Networks := [("bridge", {| IPAddress := "10.0.0.5";
                                               Aliases := [""] |})] |} in
  let web := {| Name := "/web"; Hostname := "";
                Networks := [("backend", {| IPAddress := "10.0.0.5";
                                            Aliases := [] |})] |} in
  synthesize "base.domain" [unnamed; web]
  = host_entries
      (fold_left (process_attachment "base.domain") (attachments [web]) initial)
  ∧ filter (λ e, ipAddress e = "10.0.0.5")
      (synthesize "base.domain" [unnamed; web])
    = [ {| ipAddress := "10.0.0.5"; names := ["web"; "web.base.domain"] |} ].
Proof.
  intros unnamed web.
  destruct (empty_candidates_claim_nothing "base.domain" [unnamed; web] []
              {| att_container_name := ""; att_hostname := "";
                 att_ip := "10.0.0.5"; att_aliases := [""] |}
              (attachments [web]))
    as (_ & _ & _ & H1 & _ & H2).
  - reflexivity.
  - discriminate.
  - intros b Hb. by apply not_elem_of_nil in Hb.
  - reflexivity.
  - split; [exact H1|].
    apply (H2 [] {| att_container_name := "web"; att_hostname := "";
                    att_ip := "10.0.0.5"; att_aliases := [] |} []).
    + reflexivity.
    + reflexivity.
    + discriminate.
    + intros m Hm. by apply not_elem_of_nil in Hm.
Defined.

End SynthFacts.

(** ** The file writer *)

Section UpdaterFacts.
Import PyStr Synth Updater Aux.

(** *** Lines *)

(** Joining the lines of a text gives the text back. *)
Lemma splitlines_aux_concat n : ∀ cur s,
  (String.length s ≤ n)%nat →
  concat_lines (splitlines_aux cur s) = cur +:+ s.
Proof.
  induction n as [|n IH]; intros cur s Hn.
  - destruct s; [|simpl in Hn; lia]. simpl.
    by rewrite str_app_nil_r, concat_last_line.
  - destruct s as [|c s].
    { simpl. by rewrite str_app_nil_r, concat_last_line. }
    simpl in Hn. simpl. case_bool_decide as Hc.
    + subst c. destruct s as [|d s].
      * simpl. by rewrite str_app_nil_r.
      * simpl in Hn. cbv iota. case_bool_decide as Hd.
        -- subst d. rewrite concat_lines_cons, (IH EmptyString s) by lia.
           by rewrite str_app_nil_l, str_app_assoc.
        -- rewrite concat_lines_cons, (IH EmptyString (String d s))
             by (simpl; lia).
           by rewrite str_app_nil_l, str_app_assoc.
    + destruct (is_linebreak c); simpl.
      * rewrite (IH EmptyString s) by lia.
        by rewrite str_app_nil_l, str_app_assoc.
      * rewrite (IH (cur +:+ String c EmptyString) s) by lia.
        by rewrite str_app_assoc.
Qed.

Lemma concat_splitlines s : concat_lines (splitlines s) = s.
Proof. unfold splitlines. by rewrite (splitlines_aux_concat (String.length s)). Qed.

(** *** Reading in text mode *)

(** Induction along the cases of [universal_newlines]. *)
Lemma universal_newlines_ind (P : string → Prop) :
  P EmptyString →
  P (String CR EmptyString) →
  (∀ s, P s → P (String CR (String LF s))) →
  (∀ d s, d ≠ LF → P (String d s) → P (String CR (String d s))) →
  (∀ c s, c ≠ CR → P s → P (String c s)) →
  ∀ s, P s.
Proof.
  intros Hnil Hcr Hcrlf Hlone Hother s.
  remember (String.length s) as n eqn:Hn.
  assert (String.length s ≤ n)%nat as Hle by lia. clear Hn.
  revert s Hle. induction n as [|n IH]; intros s Hle.
  - destruct s; [done|simpl in Hle; lia].
  - destruct s as [|c s]; [done|]. simpl in Hle.
    destruct (decide (c = CR)) as [->|Hc].
    + destruct s as [|d s]; [done|]. simpl in Hle.
      destruct (decide (d = LF)) as [->|Hd].
      * apply Hcrlf, IH. lia.
      * apply Hlone; [done|]. apply IH. simpl. lia.
    + apply Hother; [done|]. apply IH. lia.
Qed.

Lemma universal_newlines_crlf s :
  universal_newlines (String CR (String LF s)) = String LF (universal_newlines s).
Proof. reflexivity. Qed.

Lemma universal_newlines_lone d s :
  d ≠ LF →
  universal_newlines (String CR (String d s))
  = String LF (universal_newlines (String d s)).
Proof.
  intros Hd. change (universal_newlines (String CR (String d s)))
    with (if bool_decide (d = LF) then String LF (universal_newlines s)
          else String LF (universal_newlines (String d s))).
  by rewrite bool_decide_eq_false_2.
Qed.

Lemma universal_newlines_other c s :
  c ≠ CR → universal_newlines (String c s) = String c (universal_newlines s).
Proof.
  intros Hc. change (universal_newlines (String c s))
    with (if is_cr c
          then match s with
               | String d s'' =>
                   if bool_decide (d = LF) then String LF (universal_newlines s'')
                   else String LF (universal_newlines s)
               | EmptyString => NL
               end
          else String c (universal_newlines s)).
  unfold is_cr. by rewrite bool_decide_eq_false_2.
Qed.

(** A file without carriage returns is read as it is stored. *)
Lemma universal_newlines_keeps s :
  free_of is_cr s = true → universal_newlines s = s.
Proof.
  induction s as [|c s IH]; [done|]. simpl free_of.
  intros [Hc Hs]%andb_prop. apply negb_true_iff, bool_decide_eq_false in Hc.
  by rewrite universal_newlines_other, IH.
Qed.

(** Reading never makes a text longer. *)
Lemma universal_newlines_length s :
  (String.length (universal_newlines s) ≤ String.length s)%nat.
Proof.
  induction s as [| |s IH|d s Hd IH|c s Hc IH] using universal_newlines_ind.
  - done.
  - done.
  - rewrite universal_newlines_crlf. simpl. lia.
  - rewrite universal_newlines_lone by done. simpl in *. lia.
  - rewrite universal_newlines_other by done. simpl. lia.
Qed.

(** What is read up to a line feed does not depend on what follows it. *)
Lemma universal_newlines_newline s t :
  universal_newlines (s +:+ NL +:+ t)
  = universal_newlines (s +:+ NL) +:+ universal_newlines t.
Proof.
  induction s as [| |s IH|d s Hd IH|c s Hc IH] using universal_newlines_ind.
  - done.
  - done.
  - rewrite !str_app_cons, !universal_newlines_crlf, IH. done.
  - rewrite (str_app_cons CR), (str_app_cons CR).
    rewrite (str_app_cons d s), (str_app_cons d s).
    rewrite !universal_newlines_lone by done.
    rewrite <- !(str_app_cons d s), IH. done.
  - rewrite !str_app_cons, !universal_newlines_other by done. by rewrite IH.
Qed.

(** A line feed put after the characters of a file is read as a line feed of
    its own, or as the second half of the pair of a carriage return that
    ended the file. *)
Lemma universal_newlines_snoc s :
  ∃ s', universal_newlines (s +:+ NL) = s' +:+ NL
        ∧ (s' = universal_newlines s ∨ s' +:+ NL = universal_newlines s).
Proof.
  induction s as [| |s IH|d s Hd IH|c s Hc IH] using universal_newlines_ind.
  - exists EmptyString. split; [done|by left].
  - exists EmptyString. split; [done|by right].
  - destruct IH as (s' & Heq & Hs'). exists (String LF s').
    rewrite !str_app_cons, !universal_newlines_crlf, Heq.
    split; [done|]. destruct Hs' as [->| <-]; [by left|by right].
  - destruct IH as (s' & Heq & Hs'). exists (String LF s').
    rewrite (str_app_cons CR), (str_app_cons d s).
    rewrite !universal_newlines_lone by done.
    rewrite <- (str_app_cons d s), Heq.
    split; [done|]. destruct Hs' as [->| <-]; [by left|by right].
  - destruct IH as (s' & Heq & Hs'). exists (String c s').
    rewrite !str_app_cons, !universal_newlines_other by done. rewrite Heq.
    split; [done|]. destruct Hs' as [->| <-]; [by left|by right].
Qed.

(** *** The search for a marker *)

Lemma find_index_app p pre x rest :
  (∀ y, y ∈ pre → p y = false) → p x = true →
  find_index p (pre ++ x :: rest) = Some (length pre).
Proof.
  intros Hpre Hx. induction pre as [|y pre IH]; simpl.
  - by rewrite Hx.
  - rewrite (Hpre y) by (by left). rewrite IH; [done|].
    intros z Hz. apply Hpre. by right.
Qed.



Lemma begin_not_end line :
  is_marker BEGIN_BLOCK line = true → is_marker END_BLOCK line = false.
Proof.
  intros H%bool_decide_eq_true. apply bool_decide_eq_false. by rewrite H.
Qed.

(** *** Running the writer *)

Lemma get_docker_container_hosts_run e w :
  ∃ acts, get_docker_container_hosts e w
          = (Return (docker_entries e), {| files := files w; log := log w ++ acts |}).
Proof.
  unfold docker_entries, get_docker_container_hosts, try_except,
    run_docker_ls, run_docker_inspect, json_loads, mbind, M_bind, bind,
    mret, M_ret, ret, raise, record, nothing.
  simpl.
  destruct (container_ls (docker e)) as [rc out|x]; [|by eexists].
  simpl. case_bool_decide; [by eexists|].
  destruct (split_ws (strip out)) as [|i ids]; [by eexists|].
  simpl.
  destruct (container_inspect (docker e) (i :: ids)) as [rc' out'|x];
    [|eexists; by rewrite <- app_assoc].
  simpl. case_bool_decide; [eexists; by rewrite <- app_assoc|].
  destruct out'; eexists; by rewrite <- app_assoc.
Qed.

Lemma engine_fails_no_entries e :
  engine_fails (docker e) = true → docker_entries e = [].
Proof.
  unfold engine_fails, inspect_fails, docker_entries,
    get_docker_container_hosts, try_except,
    run_docker_ls, run_docker_inspect, json_loads, mbind, M_bind, bind,
    mret, M_ret, ret, raise, record, nothing.
  simpl.
  destruct (container_ls (docker e)) as [rc out|x]; [|done].
  simpl. case_bool_decide; [done|]. simpl.
  destruct (split_ws (strip out)) as [|i ids]; [done|].
  simpl.
  destruct (container_inspect (docker e) (i :: ids)) as [rc' out'|x]; [|done].
  simpl. case_bool_decide; [done|]. by destruct out'.
Qed.

(** An engine that answers both queries yields one formatted entry per
    synthesized record. *)
Lemma docker_entries_inventory e out ids containers :
  container_ls (docker e) = Exited 0 out →
  split_ws (strip out) = ids → ids ≠ [] →
  container_inspect (docker e) ids = Exited 0 (Inventory containers) →
  docker_entries e = render <$> synthesize (DOMAIN_BASE e) containers.
Proof.
  intros Hls Hids Hne Hinspect.
  unfold docker_entries, get_docker_container_hosts, try_except,
    run_docker_ls, run_docker_inspect, json_loads, mbind, M_bind, bind,
    mret, M_ret, ret, raise, record, nothing.
  simpl. rewrite Hls. simpl. rewrite Hids.
  destruct ids as [|i ids]; [done|]. simpl. by rewrite Hinspect.
Qed.

(** With the file readable, both markers found and no fault in the three
    file operations, the writer succeeds and the file holds the new lines. *)
Lemma update_hosts_file_run e w contents start_idx end_idx :
  files w !! HOSTS_FILE = Some contents →
  read_fault e = None → temp_fault e = None →
  chmod_fault e = None → mv_fault e = None →
  find_index (is_marker BEGIN_BLOCK) (lines_read contents) = Some start_idx →
  find_index (is_marker END_BLOCK) (lines_read contents) = Some end_idx →
  ∃ w', update_hosts_file e w = (Return true, w')
        ∧ files w' !! HOSTS_FILE
          = Some (concat_lines
                    (build_new_lines (lines_read contents) start_idx end_idx
                       (docker_entries e))).
Proof.
  intros Hfile Hr Ht Hc Hm Hs He. unfold lines_read in *.
  unfold update_hosts_file, try_except, read_text, mbind, M_bind, bind.
  rewrite Hr. simpl. rewrite Hfile, Hs, He.
  destruct (get_docker_container_hosts_run e (record (ReadText HOSTS_FILE) w))
    as [acts ->].
  unfold named_temporary_file, run_chmod, run_mv, mret, M_ret, ret, record.
  rewrite Ht, Hc, Hm. simpl.
  rewrite lookup_insert_eq. simpl.
  eexists. split; [done|]. simpl. by rewrite lookup_insert_eq.
Qed.

(** The writer reads the file in text mode, so the line ends before and
    after the section do not stay as they are: carriage returns go. *)
Lemma update_hosts_file_rewrites_line_ends :
  let c := {| Name := "/test-nginx"; Hostname := "test-nginx";
              Networks := [("bridge", {| IPAddress := "10.0.0.5"; Aliases := [] |})] |} in
  let e := {| DOMAIN_BASE := "base.domain";
              docker := {| container_ls := Exited 0 (unlines ["3f2a9c41d0b7"]);
                           container_inspect := λ _, Exited 0 (Inventory [c]) |};
              temp_name := "tmpk3x9q2vd";
              read_fault := None; append_fault := None; temp_fault := None;
              chmod_fault := None; mv_fault := None |} in
  let stored := "A" +:+ CRLF +:+ BEGIN_BLOCK +:+ CRLF +:+ "old" +:+ CRLF
                +:+ END_BLOCK +:+ CRLF +:+ "B" +:+ CRLF in
  let w := {| files := {[ HOSTS_FILE := stored ]}; log := [] |} in
  lines_read stored
  = ["A" +:+ NL; BEGIN_BLOCK +:+ NL; "old" +:+ NL; END_BLOCK +:+ NL; "B" +:+ NL]
  ∧ well_formed (lines_read stored) = true
  ∧ (update_hosts_file e w).1 = Return true
  ∧ files (update_hosts_file e w).2 !! HOSTS_FILE
    = Some ("A" +:+ NL +:+ BEGIN_BLOCK +:+ NL
            +:+ "10.0.0.5 test-nginx test-nginx.base.domain" +:+ NL
            +:+ END_BLOCK +:+ NL +:+ "B" +:+ NL)
  ∧ String.prefix ("A" +:+ CRLF +:+ BEGIN_BLOCK +:+ CRLF) stored = true
  ∧ ∃ new, files (update_hosts_file e w).2 !! HOSTS_FILE = Some new
           ∧ String.prefix ("A" +:+ CRLF) new = false
           ∧ contains ("B" +:+ CRLF) new = false.
Proof.
  intros c e stored w. split_and!; try (by vm_compute).
  eexists. split; [by vm_compute|]. by vm_compute.
Qed.

(** C3 (amended): on a file with one begin-marker line and one end-marker
    line, the begin marker first, a write that meets no fault replaces the
    lines strictly between the markers by one line per entry; the two marker
    lines and the lines before and after them are written back as they were
    read, that is with every carriage return and its line feed, and every
    carriage return alone, as one line feed.  For a file without carriage
    return the text read is the text stored, so that nothing outside the
    section changes. *)
Theorem update_hosts_file_replaces_section e w contents pre b body en post :
  files w !! HOSTS_FILE = Some contents →
  read_fault e = None → temp_fault e = None →
  chmod_fault e = None → mv_fault e = None →
  lines_read contents = pre ++ b :: body ++ en :: post →
  is_marker BEGIN_BLOCK b = true →
  is_marker END_BLOCK en = true →
  (∀ line, line ∈ pre ++ body ++ post →
     is_marker BEGIN_BLOCK line = false ∧ is_marker END_BLOCK line = false) →
  universal_newlines contents
  = concat_lines pre +:+ b +:+ concat_lines body +:+ en +:+ concat_lines post
  ∧ (free_of is_cr contents = true → universal_newlines contents = contents)
  ∧ ∃ w', update_hosts_file e w = (Return true, w')
      ∧ files w' !! HOSTS_FILE
        = Some (concat_lines pre +:+ b
                +:+ concat_lines (map (λ entry, entry +:+ NL) (docker_entries e))
                +:+ en +:+ concat_lines post).
Proof.
  intros Hfile Hr Ht Hc Hm Hlines Hb Hen Hothers.
  split.
  { rewrite <- (concat_splitlines (universal_newlines contents)).
    fold (lines_read contents). rewrite Hlines.
    rewrite concat_lines_app, concat_lines_cons, concat_lines_app.
    by rewrite concat_lines_cons. }
  split; [apply universal_newlines_keeps|].
  assert (find_index (is_marker BEGIN_BLOCK) (lines_read contents)
          = Some (length pre)) as Hs.
  { rewrite Hlines. apply find_index_app; [|done].
    intros y Hy. apply Hothers. set_solver. }
  assert (find_index (is_marker END_BLOCK) (lines_read contents)
          = Some (length (pre ++ b :: body))) as He.
  { rewrite Hlines.
    replace (pre ++ b :: body ++ en :: post)
      with ((pre ++ b :: body) ++ en :: post) by (by rewrite <- app_assoc).
    apply find_index_app; [|done].
    intros y [Hy|[->|Hy]%elem_of_cons]%elem_of_app.
    - apply Hothers. set_solver.
    - by apply begin_not_end.
    - apply Hothers. set_solver. }
  destruct (update_hosts_file_run e w contents _ _ Hfile Hr Ht Hc Hm Hs He)
    as (w' & Hrun & Hnew).
  exists w'. split; [done|]. rewrite Hnew. f_equal.
  unfold build_new_lines. rewrite Hlines.
  replace (pre ++ b :: body ++ en :: post)
    with ((pre ++ [b]) ++ body ++ en :: post) at 1
    by (by rewrite <- app_assoc).
  rewrite take_app_length' by (rewrite length_app; simpl; lia).
  replace (pre ++ b :: body ++ en :: post)
    with ((pre ++ b :: body) ++ en :: post) by (by rewrite <- app_assoc).
  rewrite drop_app_length.
  rewrite !concat_lines_app, concat_lines_cons. simpl.
  by rewrite str_app_nil_r, !str_app_assoc.
Qed.

(** The example of the specification, as an instance of the theorem. *)
Lemma update_hosts_file_example :
  let c := {| Name := "/test-nginx"; Hostname := "test-nginx";
              Networks := [("bridge", {| IPAddress := "10.0.0.5"; Aliases := [] |})] |} in
  let e := {| DOMAIN_BASE := "base.domain";
              docker := {| container_ls := Exited 0 (unlines ["3f2a9c41d0b7"]);
                           container_inspect := λ _, Exited 0 (Inventory [c]) |};
              temp_name := "tmpk3x9q2vd";
              read_fault := None; append_fault := None; temp_fault := None;
              chmod_fault := None; mv_fault := None |} in
  let w := {| files := {[ HOSTS_FILE :=
                unlines ["A"; BEGIN_BLOCK; "old"; END_BLOCK; "B"] ]};
              log := [] |} in
  ∃ w', update_hosts_file e w = (Return true, w')
     ∧ files w' !! HOSTS_FILE
       = Some (unlines ["A"; BEGIN_BLOCK;
                        "10.0.0.5 test-nginx test-nginx.base.domain";
                        END_BLOCK; "B"]).
Proof.
  intros c e w.
  destruct (update_hosts_file_replaces_section e w
              (unlines ["A"; BEGIN_BLOCK; "old"; END_BLOCK; "B"])
              ["A" +:+ NL] (BEGIN_BLOCK +:+ NL) ["old" +:+ NL]
              (END_BLOCK +:+ NL) ["B" +:+ NL])
    as (_ & _ & w' & Hrun & Hnew); try reflexivity.
  - intros line Hline.
    repeat (apply elem_of_cons in Hline as [->|Hline]; [by vm_compute|]).
    by apply not_elem_of_nil in Hline.
  - exists w'. split; [exact Hrun|exact Hnew].
Defined.




(** A failing engine does not make the pass skip the write: the section is
    written without its lines. *)
Lemma runtime_failure_rewrites_file :
  let e := {| DOMAIN_BASE := "base.domain";
              docker := {| container_ls := Failed TimeoutExpired;
                           container_inspect := λ _, Exited 0 Undecodable |};
              temp_name := "tmpk3x9q2vd";
              read_fault := None; append_fault := None; temp_fault := None;
              chmod_fault := None; mv_fault := None |} in
  let w := {| files := {[ HOSTS_FILE :=
                unlines ["A"; BEGIN_BLOCK; "10.0.0.5 web web.base.domain";
                         END_BLOCK; "B"] ]};
              log := [] |} in
  engine_fails (docker e) = true
  ∧ (update_hosts_file e w).1 = Return true
  ∧ files (update_hosts_file e w).2 !! HOSTS_FILE
    = Some (unlines ["A"; BEGIN_BLOCK; END_BLOCK; "B"])
  ∧ files (update_hosts_file e w).2 !! HOSTS_FILE ≠ files w !! HOSTS_FILE.
Proof. by vm_compute. Qed.

Lemma update_hosts_file_returns e w :
  ∃ ok w', update_hosts_file e w = (Return ok, w').
Proof.
  unfold update_hosts_file, try_except at 1.
  match goal with |- context [let (_, _) := ?m w in _] =>
    destruct (m w) as [[ok|x] w'] end; by eexists _, _.
Qed.

(** C1 (amended): when the engine cannot be reached, times out or answers
    with output that cannot be decoded, nothing is raised out of the pass,
    the inventory is taken to be empty and the pass goes on: with both
    markers found and no fault in the file operations, the write succeeds
    and leaves the lines up to the first begin marker followed by the lines
    from the first end marker on, with nothing in between. *)
Theorem runtime_failure_empties_section e w contents start_idx end_idx :
  engine_fails (docker e) = true →
  files w !! HOSTS_FILE = Some contents →
  read_fault e = None → temp_fault e = None →
  chmod_fault e = None → mv_fault e = None →
  find_index (is_marker BEGIN_BLOCK) (lines_read contents) = Some start_idx →
  find_index (is_marker END_BLOCK) (lines_read contents) = Some end_idx →
  docker_entries e = []
  ∧ (∀ w0, ∃ entries w1,
       get_docker_container_hosts e w0 = (Return entries, w1)
       ∧ entries = [] ∧ files w1 = files w0)
  ∧ ∃ w', update_hosts_file e w = (Return true, w')
      ∧ files w' !! HOSTS_FILE
        = Some (concat_lines (take (S start_idx) (lines_read contents)
                              ++ drop end_idx (lines_read contents))).
Proof.
  intros Hfail Hfile Hr Ht Hc Hm Hs He.
  pose proof (engine_fails_no_entries e Hfail) as Hnone.
  split; [done|]. split.
  { intros w0. destruct (get_docker_container_hosts_run e w0) as [acts ->].
    eexists _, _. by rewrite Hnone. }
  destruct (update_hosts_file_run e w contents _ _ Hfile Hr Ht Hc Hm Hs He)
    as (w' & Hrun & Hnew).
  exists w'. split; [done|]. rewrite Hnew, Hnone. done.
Qed.

Lemma runtime_failure_empties_section_witness :
  let e := {| DOMAIN_BASE := "base.domain";
              docker := {| container_ls := Exited 0 (unlines ["3f2a9c41d0b7"]);
                           container_inspect := λ _, Exited 0 Undecodable |};
              temp_name := "tmpk3x9q2vd";
              read_fault := None; append_fault := None; temp_fault := None;
              chmod_fault := None; mv_fault := None |} in
  let w := {| files := {[ HOSTS_FILE :=
                unlines ["A"; BEGIN_BLOCK; "old"; END_BLOCK; "B"] ]};
              log := [] |} in
  ∃ w', update_hosts_file e w = (Return true, w')
     ∧ files w' !! HOSTS_FILE
       = Some (unlines ["A"; BEGIN_BLOCK; END_BLOCK; "B"]).
Proof.
  intros e w.
  destruct (runtime_failure_empties_section e w
              (unlines ["A"; BEGIN_BLOCK; "old"; END_BLOCK; "B"]) 1 3)
    as (_ & _ & w' & Hrun & Hnew); try reflexivity.
  exists w'. split; [exact Hrun|exact Hnew].
Defined.

(** *** The initialization step *)

Lemma prefix_app sub c : String.prefix sub (sub +:+ c) = true.
Proof.
  induction sub as [|a sub IH]; simpl; [by destruct c|].
  by destruct (ascii_dec a a).
Qed.

Lemma prefix_split sub s :
  String.prefix sub s = true → ∃ c, s = sub +:+ c.
Proof.
  revert s. induction sub as [|a sub IH]; intros s; simpl.
  - intros _. by exists s.
  - destruct s as [|b s]; [done|]. simpl.
    destruct (ascii_dec a b) as [->|]; [|done].
    intros [c ->]%IH. by exists c.
Qed.

Lemma contains_prefix sub s : String.prefix sub s = true → contains sub s = true.
Proof. intros H. destruct s; simpl in *; by rewrite H. Qed.

Lemma contains_app a sub c : contains sub (a +:+ sub +:+ c) = true.
Proof.
  induction a as [|x a IH].
  - rewrite str_app_nil_l. apply contains_prefix, prefix_app.
  - rewrite str_app_cons. simpl. rewrite IH. by rewrite orb_true_r.
Qed.

Lemma contains_split sub s :
  contains sub s = true → ∃ a c, s = a +:+ sub +:+ c.
Proof.
  induction s as [|x s IH]; simpl.
  - destruct sub; [|done]. intros _. by exists EmptyString, EmptyString.
  - change (String.prefix sub (String x s) || contains sub s = true → ∃ a c, String x s = a +:+ sub +:+ c).
    intros [[c ->]%prefix_split|(a & c & ->)%IH]%orb_prop.
    + by exists EmptyString, c.
    + by exists (String x a), c.
Qed.

Lemma contains_app_r sub s t :
  contains sub s = true → contains sub (s +:+ t) = true.
Proof.
  intros (a & c & ->)%contains_split.
  rewrite !str_app_assoc. apply contains_app.
Qed.

Lemma lstrip_suffix p s : ∃ a, s = a +:+ lstrip_with p s.
Proof.
  induction s as [|c s [a IH]]; simpl; [by exists EmptyString|].
  destruct (p c).
  - exists (String c a). by rewrite str_app_cons, <- IH.
  - by exists EmptyString.
Qed.

Lemma rstrip_prefix p s : ∃ c, s = rstrip_with p s +:+ c.
Proof.
  induction s as [|x s [c IH]]; simpl; [by exists EmptyString|].
  destruct (rstrip_with p s) as [|y r] eqn:E.
  - destruct (p x).
    + by exists (String x s).
    + exists s. done.
  - exists c. by rewrite str_app_cons, <- IH.
Qed.

Lemma strip_infix s : ∃ a c, s = a +:+ strip s +:+ c.
Proof.
  unfold strip. destruct (lstrip_suffix is_space s) as [a Ha].
  destruct (rstrip_prefix is_space (lstrip_with is_space s)) as [c Hc].
  exists a, c. by rewrite <- Hc.
Qed.

Lemma line_infix l lines :
  l ∈ lines → ∃ a c, concat_lines lines = a +:+ l +:+ c.
Proof.
  intros (l1 & l2 & ->)%list_elem_of_split.
  exists (concat_lines l1), (concat_lines l2).
  by rewrite concat_lines_app, concat_lines_cons.
Qed.

(** The lines of a text up to a line feed do not depend on what follows. *)
Lemma splitlines_aux_newline n : ∀ cur s t,
  (String.length s ≤ n)%nat →
  splitlines_aux cur (s +:+ NL +:+ t)
  = splitlines_aux cur (s +:+ NL) ++ splitlines t.
Proof.
  induction n as [|n IH]; intros cur s t Hn.
  - destruct s; [|simpl in Hn; lia]. by rewrite !str_app_nil_l.
  - destruct s as [|c s]; [by rewrite !str_app_nil_l|].
    simpl in Hn. rewrite !str_app_cons. simpl.
    case_bool_decide as Hc.
    + destruct s as [|d s].
      * by rewrite !str_app_nil_l.
      * simpl in Hn. rewrite !str_app_cons. cbv iota.
        case_bool_decide.
        -- rewrite (IH EmptyString s t) by lia. done.
        -- rewrite <- !str_app_cons.
           rewrite (IH EmptyString (String d s) t) by (simpl; lia). done.
    + destruct (is_linebreak c).
      * rewrite (IH EmptyString s t) by lia. done.
      * by rewrite (IH (cur +:+ String c EmptyString) s t) by lia.
Qed.

Lemma splitlines_newline s t :
  splitlines (s +:+ NL +:+ t) = splitlines (s +:+ NL) ++ splitlines t.
Proof. apply (splitlines_aux_newline (String.length s)). done. Qed.

Lemma count_markers_app block l k :
  count_markers block (l ++ k)
  = (count_markers block l + count_markers block k)%nat.
Proof. unfold count_markers. by rewrite filter_app, length_app. Qed.

(** *** Markers in the text read *)

Lemma prefix_cons a sub c s :
  String.prefix (String a sub) (String c s)
  = (if ascii_dec a c then String.prefix sub s else false).
Proof. reflexivity. Qed.

Lemma prefix_nil s : String.prefix EmptyString s = true.
Proof. by destruct s. Qed.

Lemma prefix_universal sub s :
  free_of ends_line sub = true →
  String.prefix sub (universal_newlines s) = String.prefix sub s.
Proof.
  revert s. induction sub as [|a sub IH]; intros s; [by rewrite !prefix_nil|].
  simpl free_of. intros [Ha Hsub]%andb_prop.
  apply negb_true_iff, orb_false_iff in Ha as [Hcr Hlb].
  apply bool_decide_eq_false in Hcr.
  assert (a ≠ LF) as Hlf by (intros ->; done).
  destruct s as [|c s]; [done|].
  destruct (decide (c = CR)) as [->|Hc].
  - assert (∃ t, universal_newlines (String CR s) = String LF t) as [t ->].
    { destruct s as [|d s]; [by eexists|].
      destruct (decide (d = LF)) as [->|Hd].
      - rewrite universal_newlines_crlf. by eexists.
      - rewrite universal_newlines_lone by done. by eexists. }
    rewrite !prefix_cons.
    destruct (ascii_dec a LF); [done|]. by destruct (ascii_dec a CR).
  - rewrite universal_newlines_other by done. rewrite !prefix_cons.
    by rewrite IH.
Qed.

Lemma prefix_other a sub c s :
  a ≠ c → String.prefix (String a sub) (String c s) = false.
Proof. intros H. rewrite prefix_cons. by destruct (ascii_dec a c). Qed.

Lemma contains_cons sub c s :
  contains sub (String c s) = String.prefix sub (String c s) || contains sub s.
Proof. reflexivity. Qed.

(** A text without line end occurs in what is read exactly when it occurs
    in what is stored. *)
Lemma contains_universal sub s :
  sub ≠ EmptyString → free_of ends_line sub = true →
  contains sub (universal_newlines s) = contains sub s.
Proof.
  intros Hne Hfree.
  destruct sub as [|a sub]; [done|].
  assert (a ≠ CR ∧ a ≠ LF) as [Hcr Hlf].
  { simpl in Hfree. apply andb_prop in Hfree as [Ha _].
    apply negb_true_iff, orb_false_iff in Ha as [Ha Hb].
    apply bool_decide_eq_false in Ha. split; [done|]. by intros ->. }
  induction s as [| |s IH|d s Hd IH|c s Hc IH] using universal_newlines_ind.
  - done.
  - change (universal_newlines (String CR "")) with (String LF "").
    rewrite !contains_cons, !prefix_other by done. done.
  - rewrite universal_newlines_crlf.
    rewrite !contains_cons, !prefix_other by done. simpl orb. exact IH.
  - rewrite universal_newlines_lone by done.
    rewrite (contains_cons _ LF), (contains_cons _ CR).
    rewrite !prefix_other by done. simpl orb. exact IH.
  - rewrite universal_newlines_other by done.
    rewrite !contains_cons, <- IH.
    rewrite <- (universal_newlines_other c s Hc).
    by rewrite prefix_universal.
Qed.

Lemma contains_begin_universal s :
  contains BEGIN_BLOCK (universal_newlines s) = contains BEGIN_BLOCK s.
Proof. by apply contains_universal. Qed.

Lemma contains_end_universal s :
  contains END_BLOCK (universal_newlines s) = contains END_BLOCK s.
Proof. by apply contains_universal. Qed.

(** A marker line lies in a text that holds the marker. *)
Lemma marker_line_contains block s line :
  line ∈ splitlines s → is_marker block line = true → contains block s = true.
Proof.
  intros Hline Hstrip%bool_decide_eq_true.
  apply line_infix in Hline as (a & c & Hcat).
  rewrite concat_splitlines in Hcat.
  destruct (strip_infix line) as (a' & c' & Hl).
  rewrite Hstrip in Hl. rewrite Hl in Hcat.
  rewrite Hcat, !str_app_assoc, <- str_app_assoc. apply contains_app.
Qed.

Lemma count_markers_pos block l :
  (0 < count_markers block l)%nat →
  ∃ line, line ∈ l ∧ is_marker block line = true.
Proof.
  unfold count_markers. intros H.
  destruct (filter (λ line, is_marker block line = true) l) as [|x f] eqn:E;
    [simpl in H; lia|].
  assert (x ∈ filter (λ line, is_marker block line = true) l) as Hx
    by (rewrite E; by left).
  apply list_elem_of_filter in Hx as [? ?]. by exists x.
Qed.

Lemma count_markers_zero block l :
  count_markers block l = 0%nat →
  ∀ line, line ∈ l → is_marker block line = false.
Proof.
  unfold count_markers. intros H line Hline.
  destruct (is_marker block line) eqn:E; [|done].
  assert (line ∈ filter (λ line, is_marker block line = true) l) as Hx
    by (by apply list_elem_of_filter).
  apply length_zero_iff_nil in H. rewrite H in Hx.
  by apply not_elem_of_nil in Hx.
Qed.

Lemma count_markers_one block x :
  count_markers block [x] = (if is_marker block x then 1 else 0)%nat.
Proof.
  unfold count_markers. rewrite filter_cons, filter_nil.
  destruct (is_marker block x); by case_decide.
Qed.

(** *** A line feed after the last line *)

Lemma rstrip_snoc_space p s c :
  p c = true → rstrip_with p (s +:+ String c EmptyString) = rstrip_with p s.
Proof.
  intros Hc. induction s as [|a s IH].
  - simpl. by rewrite Hc.
  - rewrite str_app_cons. simpl. by rewrite IH.
Qed.

Lemma strip_newline x : strip (x +:+ NL) = strip x.
Proof.
  unfold strip. induction x as [|c x IH]; [done|].
  rewrite str_app_cons. simpl lstrip_with.
  destruct (is_space c); [exact IH|].
  rewrite <- str_app_cons. by apply rstrip_snoc_space.
Qed.

Lemma is_marker_newline block x :
  is_marker block (x +:+ NL) = is_marker block x.
Proof. unfold is_marker. by rewrite strip_newline. Qed.

(** One more line feed closes the last line, or adds an empty line. *)
Lemma splitlines_aux_snoc s : ∀ cur,
  (∃ pre x, splitlines_aux cur s = pre ++ [x]
            ∧ splitlines_aux cur (s +:+ NL) = pre ++ [x +:+ NL])
  ∨ splitlines_aux cur (s +:+ NL) = splitlines_aux cur s ++ [NL].
Proof.
  assert (∀ head l k,
    ((∃ pre x, l = pre ++ [x] ∧ k = pre ++ [x +:+ NL]) ∨ k = l ++ [NL]) →
    (∃ pre x, head :: l = pre ++ [x] ∧ head :: k = pre ++ [x +:+ NL])
    ∨ head :: k = (head :: l) ++ [NL]) as Hlift.
  { intros head l k [(pre & x & -> & ->)| ->]; [left|by right].
    by exists (head :: pre), x. }
  induction s as [| |s IH|d s Hd IH|c s Hc IH] using universal_newlines_ind;
    intros cur.
  - destruct cur as [|a cur].
    + by right.
    + left. by exists [], (String a cur).
  - left. exists [], (cur +:+ String CR EmptyString).
    split; [done|]. simpl. by rewrite str_app_assoc.
  - rewrite !str_app_cons.
    change (splitlines_aux cur (String CR (String LF (s +:+ NL))))
      with ((cur +:+ String CR (String LF EmptyString))
            :: splitlines_aux EmptyString (s +:+ NL)).
    change (splitlines_aux cur (String CR (String LF s)))
      with ((cur +:+ String CR (String LF EmptyString))
            :: splitlines_aux EmptyString s).
    apply Hlift, IH.
  - rewrite (str_app_cons CR), (str_app_cons d s).
    assert (∀ t, splitlines_aux cur (String CR (String d t))
                 = (cur +:+ String CR EmptyString)
                   :: splitlines_aux EmptyString (String d t)) as Heq.
    { intros t.
      change (splitlines_aux cur (String CR (String d t)))
        with (if bool_decide (CR = CR)
              then if bool_decide (d = LF)
                   then (cur +:+ String CR (String LF EmptyString))
                        :: splitlines_aux EmptyString t
                   else (cur +:+ String CR EmptyString)
                        :: splitlines_aux EmptyString (String d t)
              else if is_linebreak CR
                   then (cur +:+ String CR EmptyString)
                        :: splitlines_aux EmptyString (String d t)
                   else splitlines_aux (cur +:+ String CR EmptyString) (String d t)).
      rewrite bool_decide_eq_true_2 by done.
      by rewrite bool_decide_eq_false_2. }
    rewrite !Heq, <- (str_app_cons d s). apply Hlift, IH.
  - rewrite !str_app_cons.
    assert (∀ t, splitlines_aux cur (String c t)
                 = if is_linebreak c
                   then (cur +:+ String c EmptyString) :: splitlines_aux EmptyString t
                   else splitlines_aux (cur +:+ String c EmptyString) t) as Heq.
    { intros t. simpl. by rewrite bool_decide_eq_false_2. }
    rewrite !Heq. destruct (is_linebreak c); [apply Hlift|]; apply IH.
Qed.

Lemma count_markers_newline block s :
  block ≠ EmptyString →
  count_markers block (splitlines (s +:+ NL))
  = count_markers block (splitlines s).
Proof.
  intros Hne. unfold splitlines.
  destruct (splitlines_aux_snoc s EmptyString) as [(pre & x & -> & ->)| ->].
  - rewrite !count_markers_app, !count_markers_one.
    by rewrite is_marker_newline.
  - rewrite count_markers_app, count_markers_one.
    assert (is_marker block NL = false) as ->; [|lia].
    apply bool_decide_eq_false. intros H. apply Hne. by rewrite <- H.
Qed.

(** The marker lines read from a file do not change in number when a line
    feed is put after its characters. *)
Lemma count_markers_read_newline block s :
  block ≠ EmptyString →
  count_markers block (lines_read (s +:+ NL))
  = count_markers block (lines_read s).
Proof.
  intros Hne. unfold lines_read.
  destruct (universal_newlines_snoc s) as (s' & -> & [->| <-]).
  - by apply count_markers_newline.
  - done.
Qed.

(** The lines read from a file with an empty section put after it. *)
Lemma lines_read_section s :
  lines_read (s +:+ NL +:+ BEGIN_BLOCK +:+ NL +:+ END_BLOCK +:+ NL)
  = lines_read (s +:+ NL) ++ [BEGIN_BLOCK +:+ NL; END_BLOCK +:+ NL].
Proof.
  unfold lines_read. rewrite universal_newlines_newline.
  destruct (universal_newlines_snoc s) as (s' & -> & _).
  rewrite str_app_assoc. by rewrite splitlines_newline.
Qed.

Lemma well_formed_inv lines :
  well_formed lines = true ↔
  count_markers BEGIN_BLOCK lines = 1%nat
  ∧ count_markers END_BLOCK lines = 1%nat
  ∧ ∃ i j, find_index (is_marker BEGIN_BLOCK) lines = Some i
           ∧ find_index (is_marker END_BLOCK) lines = Some j
           ∧ (i < j)%nat.
Proof.
  unfold well_formed. rewrite !andb_true_iff, !bool_decide_eq_true.
  destruct (find_index (is_marker BEGIN_BLOCK) lines) as [i|];
    destruct (find_index (is_marker END_BLOCK) lines) as [j|].
  - rewrite bool_decide_eq_true. split.
    + intros [[? ?] ?]. split_and!; [done..|]. by exists i, j.
    + intros (? & ? & i' & j' & [= <-] & [= <-] & ?). done.
  - split; [by intros [_ ?]|]. by intros (_ & _ & ? & ? & _ & ? & _).
  - split; [by intros [_ ?]|]. by intros (_ & _ & ? & ? & ? & _).
  - split; [by intros [_ ?]|]. by intros (_ & _ & ? & ? & ? & _).
Qed.

(** What the step does to a file that exists. *)
Lemma ensure_managed_section_exists_run e w contents w' :
  files w !! HOSTS_FILE = Some contents →
  ensure_managed_section_exists e w = (Return true, w') →
  (contains BEGIN_BLOCK contents = true ∧ contains END_BLOCK contents = true
   ∧ files w' = files w)
  ∨ ((contains BEGIN_BLOCK contents = false ∨ contains END_BLOCK contents = false)
     ∧ files w' = <[HOSTS_FILE := contents +:+ NL +:+ BEGIN_BLOCK +:+ NL
                                  +:+ END_BLOCK +:+ NL]> (files w)).
Proof.
  intros Hfile.
  unfold ensure_managed_section_exists, try_except, path_exists, read_text,
    append_text, mbind, M_bind, bind, mret, M_ret, ret, record.
  rewrite Hfile. rewrite bool_decide_eq_true_2 by eauto. simpl.
  destruct (read_fault e); [done|]. rewrite Hfile. simpl.
  rewrite contains_begin_universal, contains_end_universal.
  destruct (contains BEGIN_BLOCK contents) eqn:Hb;
    destruct (contains END_BLOCK contents) eqn:He; simpl.
  - intros [= <-]. by left.
  - destruct (append_fault e); [done|]. simpl. rewrite Hfile. simpl.
    intros [= <-]. right. split; [by right|done].
  - destruct (append_fault e); [done|]. simpl. rewrite Hfile. simpl.
    intros [= <-]. right. split; [by left|done].
  - destruct (append_fault e); [done|]. simpl. rewrite Hfile. simpl.
    intros [= <-]. right. split; [by left|done].
Qed.

(** A file that holds one marker gets both appended, a file that holds
    both in the wrong order is left as it is, and so is a file that holds
    the two marker texts inside other lines. *)
Lemma ensure_managed_section_exists_duplicates :
  let e := {| DOMAIN_BASE := "base.domain";
              docker := {| container_ls := Exited 0 EmptyString;
                           container_inspect := λ _, Exited 0 (Inventory []) |};
              temp_name := "tmpk3x9q2vd";
              read_fault := None; append_fault := None; temp_fault := None;
              chmod_fault := None; mv_fault := None |} in
  let w1 := {| files := {[ HOSTS_FILE := unlines ["127.0.0.1 localhost"; BEGIN_BLOCK] ]};
               log := [] |} in
  let w2 := {| files := {[ HOSTS_FILE := unlines [END_BLOCK; BEGIN_BLOCK] ]};
               log := [] |} in
  let w3 := {| files := {[ HOSTS_FILE :=
                 unlines ["#" +:+ BEGIN_BLOCK; "#" +:+ END_BLOCK] ]};
               log := [] |} in
  (ensure_managed_section_exists e w1).1 = Return true
  ∧ files (ensure_managed_section_exists e w1).2 !! HOSTS_FILE
    = Some (unlines ["127.0.0.1 localhost"; BEGIN_BLOCK; EmptyString;
                     BEGIN_BLOCK; END_BLOCK])
  ∧ count_markers BEGIN_BLOCK
      (lines_read (unlines ["127.0.0.1 localhost"; BEGIN_BLOCK; EmptyString;
                            BEGIN_BLOCK; END_BLOCK])) = 2%nat
  ∧ (ensure_managed_section_exists e w2).1 = Return true
  ∧ files (ensure_managed_section_exists e w2).2 !! HOSTS_FILE
    = Some (unlines [END_BLOCK; BEGIN_BLOCK])
  ∧ find_index (is_marker END_BLOCK) (lines_read (unlines [END_BLOCK; BEGIN_BLOCK]))
    = Some 0%nat
  ∧ find_index (is_marker BEGIN_BLOCK) (lines_read (unlines [END_BLOCK; BEGIN_BLOCK]))
    = Some 1%nat
  ∧ (ensure_managed_section_exists e w3).1 = Return true
  ∧ files (ensure_managed_section_exists e w3).2 !! HOSTS_FILE
    = Some (unlines ["#" +:+ BEGIN_BLOCK; "#" +:+ END_BLOCK])
  ∧ count_markers BEGIN_BLOCK
      (lines_read (unlines ["#" +:+ BEGIN_BLOCK; "#" +:+ END_BLOCK])) = 0%nat.
Proof. by vm_compute. Qed.

(** C7 (amended): after the step has succeeded on an existing file, the
    file is the old text, followed by an empty managed section unless both
    marker texts occurred in it already: nothing is removed or reordered,
    both marker texts occur in it, and with both already present nothing is
    written.  The file then has exactly one begin-marker line and one
    end-marker line, the begin marker first, exactly when it had them so
    before, or when it had no marker line at all and lacked one of the two
    marker texts. *)
Theorem ensure_managed_section_exists_appends e w contents w' :
  files w !! HOSTS_FILE = Some contents →
  ensure_managed_section_exists e w = (Return true, w') →
  let section := NL +:+ BEGIN_BLOCK +:+ NL +:+ END_BLOCK +:+ NL in
  let present := contains BEGIN_BLOCK contents && contains END_BLOCK contents in
  ∃ new,
    files w' !! HOSTS_FILE = Some new
    ∧ new = (if present then contents else contents +:+ section)
    ∧ (present = true → files w' = files w)
    ∧ contains BEGIN_BLOCK new = true
    ∧ contains END_BLOCK new = true
    ∧ (well_formed (lines_read new) = true ↔
       well_formed (lines_read contents) = true
       ∨ (present = false
          ∧ count_markers BEGIN_BLOCK (lines_read contents) = 0%nat
          ∧ count_markers END_BLOCK (lines_read contents) = 0%nat)).
Proof.
  intros Hfile Hrun section present.
  destruct (ensure_managed_section_exists_run e w contents w' Hfile Hrun)
    as [(Hb & He & Hsame)|[Hmiss Hnew]].
  { exists contents. rewrite Hsame.
    assert (present = true) as Hp by (unfold present; by rewrite Hb, He).
    rewrite Hp.
    split_and!; [done..|]. split; [by left|].
    by intros [?|[? _]]. }
  assert (present = false) as Hp.
  { unfold present. destruct Hmiss as [->| ->]; [done|apply andb_false_r]. }
  exists (contents +:+ section). rewrite Hp, Hnew, lookup_insert_eq.
  unfold section.
  split_and!; [done|done|done| | |].
  - rewrite <- (str_app_assoc contents NL). apply contains_app.
  - rewrite <- (str_app_assoc BEGIN_BLOCK NL), <- (str_app_assoc NL),
      <- (str_app_assoc contents).
    apply contains_app.
  - rewrite lines_read_section.
    set (old := lines_read (contents +:+ NL)).
    assert (count_markers BEGIN_BLOCK old
            = count_markers BEGIN_BLOCK (lines_read contents)) as Hcb
      by (by apply count_markers_read_newline).
    assert (count_markers END_BLOCK old
            = count_markers END_BLOCK (lines_read contents)) as Hce
      by (by apply count_markers_read_newline).
    rewrite well_formed_inv. split.
    + intros (H1 & H2 & _). right.
      rewrite count_markers_app in H1, H2.
      change (count_markers BEGIN_BLOCK [BEGIN_BLOCK +:+ NL; END_BLOCK +:+ NL])
        with 1%nat in H1.
      change (count_markers END_BLOCK [BEGIN_BLOCK +:+ NL; END_BLOCK +:+ NL])
        with 1%nat in H2.
      split_and!; [done|lia|lia].
    + intros [Hwf|(_ & H1 & H2)].
      * exfalso. apply well_formed_inv in Hwf as (H1 & H2 & _).
        destruct (count_markers_pos BEGIN_BLOCK (lines_read contents))
          as (lb & Hlb & Hmb); [lia|].
        destruct (count_markers_pos END_BLOCK (lines_read contents))
          as (le & Hle & Hme); [lia|].
        apply (marker_line_contains _ (universal_newlines contents)) in Hmb;
          [|exact Hlb].
        apply (marker_line_contains _ (universal_newlines contents)) in Hme;
          [|exact Hle].
        rewrite contains_begin_universal in Hmb.
        rewrite contains_end_universal in Hme.
        destruct Hmiss; congruence.
      * rewrite <- Hcb in H1. rewrite <- Hce in H2.
        pose proof (count_markers_zero _ _ H1) as Hob.
        pose proof (count_markers_zero _ _ H2) as Hoe.
        split_and!.
        -- by rewrite count_markers_app, H1.
        -- by rewrite count_markers_app, H2.
        -- exists (length old), (length (old ++ [BEGIN_BLOCK +:+ NL])).
           split_and!.
           ++ by apply find_index_app.
           ++ change (old ++ [BEGIN_BLOCK +:+ NL; END_BLOCK +:+ NL])
                with (old ++ [BEGIN_BLOCK +:+ NL] ++ [END_BLOCK +:+ NL]).
              rewrite app_assoc. apply find_index_app; [|done].
              intros y [Hy| ->%list_elem_of_singleton]%elem_of_app;
                [by apply Hoe|done].
           ++ rewrite length_app. simpl. lia.
Qed.

Lemma ensure_managed_section_exists_appends_witness :
  let e := {| DOMAIN_BASE := "base.domain";
              docker := {| container_ls := Exited 0 EmptyString;
                           container_inspect := λ _, Exited 0 (Inventory []) |};
              temp_name := "tmpk3x9q2vd";
              read_fault := None; append_fault := None; temp_fault := None;
              chmod_fault := None; mv_fault := None |} in
  let w := {| files := {[ HOSTS_FILE := unlines ["127.0.0.1 localhost"] ]};
              log := [] |} in
  ∃ new,
    files (ensure_managed_section_exists e w).2 !! HOSTS_FILE = Some new
    ∧ new = unlines ["127.0.0.1 localhost"; EmptyString; BEGIN_BLOCK; END_BLOCK]
    ∧ well_formed (lines_read new) = true.
Proof.
  intros e w.
  destruct (ensure_managed_section_exists_appends e w
              (unlines ["127.0.0.1 localhost"])
              (ensure_managed_section_exists e w).2)
    as (new & Hnew & Heq & _ & _ & _ & Hwf); [reflexivity|reflexivity|].
  exists new. split_and!; [exact Hnew|exact Heq|].
  apply Hwf. right. split_and!; reflexivity.
Defined.

(** *** The order of the file operations *)

(** C4: a write on the example of the specification.  The new text is
    written in full to a file under [TEMP_DIR], its mode is set, and only
    then is it moved over [HOSTS_FILE]; but [TEMP_DIR] is [/tmp], not the
    directory [/etc] of the target, so nothing places the temporary file in
    the file system of the target. *)
Theorem update_hosts_file_temp_outside_target_dir :
  let c := {| Name := "/test-nginx"; Hostname := "test-nginx";
              Networks := [("bridge", {| IPAddress := "10.0.0.5"; Aliases := [] |})] |} in
  let e := {| DOMAIN_BASE := "base.domain";
              docker := {| container_ls := Exited 0 (unlines ["3f2a9c41d0b7"]);
                           container_inspect := λ _, Exited 0 (Inventory [c]) |};
              temp_name := "tmpk3x9q2vd";
              read_fault := None; append_fault := None; temp_fault := None;
              chmod_fault := None; mv_fault := None |} in
  let w := {| files := {[ HOSTS_FILE :=
                unlines ["A"; BEGIN_BLOCK; "old"; END_BLOCK; "B"] ]};
              log := [] |} in
  let new_contents :=
    unlines ["A"; BEGIN_BLOCK; "10.0.0.5 test-nginx test-nginx.base.domain";
             END_BLOCK; "B"] in
  (update_hosts_file e w).1 = Return true
  ∧ log (update_hosts_file e w).2
    = [ ReadText "/etc/hosts";
        DockerLs;
        DockerInspect ["3f2a9c41d0b7"];
        TempWrite "/tmp" "/tmp/tmpk3x9q2vd" new_contents;
        Chmod "644" "/tmp/tmpk3x9q2vd";
        Mv "/tmp/tmpk3x9q2vd" "/etc/hosts" ]
  ∧ dirname HOSTS_FILE = "/etc"
  ∧ dirname "/tmp/tmpk3x9q2vd" = TEMP_DIR
  ∧ TEMP_DIR ≠ dirname HOSTS_FILE.
Proof. by vm_compute. Qed.

End UpdaterFacts.

(** ** The coordinator *)

Section CoordinatorFacts.
Import Coordinator.

Lemma take_line_fields t s s1 :
  take_line t s = Some s1 →
  locked s1 = locked s ∧ waiters s1 = waiters s
  ∧ in_flight s1 = in_flight s ∧ started s1 = started s
  ∧ unread_lines s
    = (unread_lines s1 + if bool_decide (t = EventsTask) then 1 else 0)%nat.
Proof.
  unfold take_line. destruct t.
  - intros [= <-]. split_and!; [done..|]. simpl. lia.
  - destruct (unread_lines s) as [|n] eqn:E; [done|].
    intros [= <-]. simpl. split_and!; [done..|]. lia.
  - intros [= <-]. split_and!; [done..|]. simpl. lia.
Qed.

Lemma acquire_cases t s :
  (locked s = false ∧ waiters s = [] ∧ acquire t s = enter t s)
  ∨ ((locked s = true ∨ waiters s ≠ [])
     ∧ locked (acquire t s) = locked s
     ∧ waiters (acquire t s) = waiters s ++ [t]
     ∧ in_flight (acquire t s) = in_flight s
     ∧ started (acquire t s) = started s
     ∧ unread_lines (acquire t s) = unread_lines s).
Proof.
  unfold acquire. destruct (locked s) eqn:El; simpl.
  - right. split_and!; [by left|done..].
  - case_bool_decide as Ew; simpl.
    + by left.
    + right. split_and!; [by right|done..].
Qed.

Lemma step_lock_inv s ev s' : lock_inv s → step s ev = Some s' → lock_inv s'.
Proof.
  intros Hinv. destruct ev as [|t|t|t]; simpl.
  - intros [= <-]. exact Hinv.
  - destruct (_ || _); [done|].
    destruct (take_line t s) as [s1|] eqn:E1; [|done]. simpl.
    intros [= <-].
    apply take_line_fields in E1 as (Hl & Hw & Hf & _ & _).
    assert (lock_inv s1) as Hinv1.
    { unfold lock_inv. by rewrite Hl, Hf. }
    destruct (acquire_cases t s1) as [(El & _ & ->)|(_ & El & _ & Ef & _)].
    + left. split; [done|]. exists t. simpl.
      destruct Hinv1 as [[? _]|[_ ->]]; [congruence|done].
    + unfold lock_inv. by rewrite El, Ef.
  - destruct (locked s) eqn:El; [done|].
    destruct (waiters s) as [|w ws]; [done|].
    case_bool_decide; [|done]. intros [= <-].
    left. split; [done|]. exists t. simpl.
    destruct Hinv as [[? _]|[_ ->]]; [congruence|done].
  - case_bool_decide as Ht; [|done]. intros [= <-].
    right. split; [done|]. simpl.
    destruct Hinv as [[_ [u Hu]]|[_ Hnil]].
    + rewrite Hu in Ht |- *. apply list_elem_of_singleton in Ht as ->.
      rewrite filter_cons_False by (intros H; by apply H). done.
    + rewrite Hnil in Ht. by apply not_elem_of_nil in Ht.
Qed.

Lemma run_lock_inv evs : ∀ s s', lock_inv s → run s evs = Some s' → lock_inv s'.
Proof.
  induction evs as [|ev evs IH]; intros s s' Hinv; simpl.
  - by intros [= <-].
  - destruct (step s ev) as [s1|] eqn:E; [|done].
    apply IH. by eapply step_lock_inv.
Qed.

Lemma count_cons p ev evs :
  count p (ev :: evs) = ((if p ev then 1 else 0) + count p evs)%nat.
Proof.
  unfold count. destruct (p ev) eqn:E.
  - by rewrite filter_cons_True.
  - rewrite filter_cons_False; [done|]. by rewrite E.
Qed.

(** Every call either has started its pipeline or waits for the lock. *)
Lemma step_triggers s ev s' :
  step s ev = Some s' →
  (length (started s') + length (waiters s')
   = (if is_trigger ev then 1 else 0) + length (started s) + length (waiters s))%nat.
Proof.
  destruct ev as [|t|t|t]; simpl.
  - by intros [= <-].
  - destruct (_ || _); [done|].
    destruct (take_line t s) as [s1|] eqn:E1; [|done]. simpl.
    intros [= <-].
    apply take_line_fields in E1 as (_ & Hw & _ & Hs & _).
    destruct (acquire_cases t s1) as [(_ & _ & ->)|(_ & _ & Ew & _ & Es & _)].
    + simpl. rewrite length_app, Hw, Hs. simpl. lia.
    + rewrite Ew, Es, length_app, Hw, Hs. simpl. lia.
  - destruct (locked s); [done|].
    destruct (waiters s) as [|w ws]; [done|].
    case_bool_decide; [|done]. intros [= <-]. simpl.
    rewrite length_app. simpl. lia.
  - case_bool_decide; [|done]. by intros [= <-].
Qed.

Lemma run_triggers evs : ∀ s s',
  run s evs = Some s' →
  (length (started s') + length (waiters s')
   = count is_trigger evs + length (started s) + length (waiters s))%nat.
Proof.
  induction evs as [|ev evs IH]; intros s s'; simpl.
  - by intros [= <-].
  - destruct (step s ev) as [s1|] eqn:E; [|done].
    intros H%IH. apply step_triggers in E. rewrite count_cons. lia.
Qed.

(** Every event line is still in the pipe or has been handed to the loop
    body of the watcher. *)
Lemma step_lines s ev s' :
  step s ev = Some s' →
  (unread_lines s' + (if is_events_trigger ev then 1 else 0)
   = unread_lines s + if is_line ev then 1 else 0)%nat.
Proof.
  destruct ev as [|t|t|t]; simpl.
  - intros [= <-]. simpl. lia.
  - destruct (_ || _); [done|].
    destruct (take_line t s) as [s1|] eqn:E1; [|done]. simpl.
    intros [= <-].
    apply take_line_fields in E1 as (_ & _ & _ & _ & Hu).
    assert (unread_lines (acquire t s1) = unread_lines s1) as ->.
    { destruct (acquire_cases t s1) as [(_ & _ & ->)|(_ & _ & _ & _ & _ & Eu)]; done. }
    destruct t; simpl in *; lia.
  - destruct (locked s); [done|].
    destruct (waiters s) as [|w ws]; [done|].
    case_bool_decide; [|done]. intros [= <-]. simpl. lia.
  - case_bool_decide; [|done]. intros [= <-]. simpl. lia.
Qed.

Lemma run_lines evs : ∀ s s',
  run s evs = Some s' →
  (unread_lines s' + count is_events_trigger evs
   = unread_lines s + count is_line evs)%nat.
Proof.
  induction evs as [|ev evs IH]; intros s s'; simpl.
  - intros [= <-]. unfold count. simpl. lia.
  - destruct (step s ev) as [s1|] eqn:E; [|done].
    intros H%IH. apply step_lines in E. rewrite !count_cons. lia.
Qed.

(** A call made while a pipeline runs waits for the lock and starts its own
    pipeline when the running one has finished. *)
Lemma queued_trigger_runs :
  run idle [Line; Trigger EventsTask; Trigger PeriodicTask]
  = Some {| locked := true; waiters := [PeriodicTask];
            in_flight := [EventsTask]; started := [EventsTask];
            unread_lines := 0 |}
  ∧ run idle [Line; Trigger EventsTask; Trigger PeriodicTask;
              Finish EventsTask; Resume PeriodicTask]
    = Some {| locked := true; waiters := [];
              in_flight := [PeriodicTask];
              started := [EventsTask; PeriodicTask];
              unread_lines := 0 |}
  ∧ run idle [Line; Trigger EventsTask; Line; Finish EventsTask;
              Trigger EventsTask]
    = Some {| locked := true; waiters := [];
              in_flight := [EventsTask];
              started := [EventsTask; EventsTask];
              unread_lines := 0 |}.
Proof. by vm_compute. Qed.

(** C2 (amended): in every state the callers can reach, at most one
    pipeline is in flight.  No call is dropped: each has started a pipeline
    or waits in the queue of the lock, and each event line is in the pipe or
    has been handed to the watcher.  A call made while a pipeline runs is
    appended to the queue, and the head of the queue starts its pipeline as
    soon as the running one has finished. *)
Theorem at_most_one_in_flight evs s :
  run idle evs = Some s →
  (length (in_flight s) ≤ 1)%nat
  ∧ (length (started s) + length (waiters s) = count is_trigger evs)%nat
  ∧ (unread_lines s + count is_events_trigger evs = count is_line evs)%nat
  ∧ (∀ t s', in_flight s ≠ [] → step s (Trigger t) = Some s' →
       waiters s' = waiters s ++ [t]
       ∧ in_flight s' = in_flight s ∧ started s' = started s)
  ∧ (∀ u t ws, in_flight s = [u] → waiters s = t :: ws →
       ∃ s', run s [Finish u; Resume t] = Some s'
             ∧ in_flight s' = [t] ∧ waiters s' = ws
             ∧ started s' = started s ++ [t]).
Proof.
  intros Hrun.
  assert (lock_inv s) as Hinv.
  { apply (run_lock_inv evs idle); [by right|done]. }
  split_and!.
  - destruct Hinv as [[_ [t ->]]|[_ ->]]; simpl; lia.
  - apply run_triggers in Hrun. simpl in Hrun. lia.
  - apply run_lines in Hrun. simpl in Hrun. lia.
  - intros t s' Hbusy. simpl.
    destruct (_ || _); [done|].
    destruct (take_line t s) as [s1|] eqn:E1; [|done]. simpl.
    intros [= <-].
    apply take_line_fields in E1 as (Hl & Hw & Hf & Hs & _).
    destruct (acquire_cases t s1) as [(El & _ & _)|(_ & _ & Ew & Ef & Es & _)].
    + destruct Hinv as [[? _]|[_ ?]]; congruence.
    + by rewrite Ew, Ef, Es, Hw, Hf, Hs.
  - intros u t ws Hu Hw. simpl.
    rewrite Hu. rewrite bool_decide_eq_true_2 by (by left). simpl.
    rewrite Hw. rewrite bool_decide_eq_true_2 by done.
    eexists. split; [done|]. simpl.
    rewrite filter_cons_False by (intros H; by apply H). done.
Qed.

Lemma at_most_one_in_flight_witness :
  let s := {| locked := true; waiters := [PeriodicTask];
              in_flight := [EventsTask]; started := [EventsTask];
              unread_lines := 1 |} in
  (length (in_flight s) ≤ 1)%nat
  ∧ ∃ s', run s [Finish EventsTask; Resume PeriodicTask] = Some s'
          ∧ in_flight s' = [PeriodicTask].
Proof.
  intros s.
  destruct (at_most_one_in_flight
              [Line; Trigger EventsTask; Line; Trigger PeriodicTask] s)
    as (Hone & _ & _ & _ & Hnext); [reflexivity|].
  split; [exact Hone|].
  destruct (Hnext EventsTask PeriodicTask []) as (s' & Hrun & Hin & _);
    [reflexivity|reflexivity|].
  exists s'. split; [exact Hrun|exact Hin].
Defined.

End CoordinatorFacts.

(* ===================================================================== *)
(** * Further properties *)
(* ===================================================================== *)

(** ** More on interval parsing *)

Section MoreIntervalFacts.
Import PyStr Interval.

Lemma units_positive u k : units u = Some k → 1 ≤ k.
Proof.
  unfold units.
  destruct u as [[] [] [] [] [] [] [] []]; intros [= <-]; lia.
Qed.

(** X1: whatever the text, [parse_time_interval] either returns at least one
    second, a multiple of the length of its unit, or raises [ValueError]. *)
Theorem parse_time_interval_positive s :
  match parse_time_interval s with
  | Return r =>
      1 ≤ r
      ∧ ∃ c k, last_char s = Some c ∧ units (lower c) = Some k
               ∧ k ≤ r ∧ r mod k = 0
  | Raise x => x = ValueError
  end.
Proof.
  destruct (parse_time_interval s) as [r|x] eqn:E.
  - apply parse_time_interval_inv in E as (c & k & v & Hc & Hk & Hv & Hpos & ->).
    pose proof (units_positive _ _ Hk).
    split; [nia|]. exists c, k. split_and!; [done|done|nia|].
    apply Z.mod_mul. lia.
  - destruct (parse_time_interval_total s) as [[r Hr]|Hr]; congruence.
Qed.

Lemma lower_lower c : lower (lower c) = lower c.
Proof. by destruct c as [[] [] [] [] [] [] [] []]. Qed.

(** X2: the case of the unit letter does not matter: a text and the same
    text with its last character lowered parse alike. *)
Theorem parse_time_interval_unit_case body c :
  parse_time_interval (body +:+ String c EmptyString)
  = parse_time_interval (body +:+ String (lower c) EmptyString).
Proof.
  unfold parse_time_interval.
  rewrite !length_snoc, !last_char_snoc, !but_last_snoc.
  cbv zeta. by rewrite lower_lower.
Qed.

End MoreIntervalFacts.

(** ** More on the entry synthesizer *)

Section MoreSynthFacts.
Import PyStr Synth Aux.

(** *** Candidate names *)

Lemma fold_add_alias_spec aliases : ∀ hs,
  NoDup hs → EmptyString ∉ hs →
  NoDup (fold_left add_alias aliases hs)
  ∧ (∀ x, x ∈ fold_left add_alias aliases hs
          ↔ x ∈ hs ∨ (x ≠ EmptyString ∧ x ∈ aliases)).
Proof.
  induction aliases as [|alias aliases IH]; intros hs Hnd Hne; simpl.
  - split; [done|]. intros x. split; [by left|].
    intros [?|[_ H]]; [done|]. by apply not_elem_of_nil in H.
  - unfold add_alias at 2 4.
    destruct (decide (alias ≠ EmptyString ∧ alias ∉ hs)) as [[Ha Hin]|Hno].
    + rewrite !bool_decide_eq_true_2 by done. simpl.
      destruct (IH (hs ++ [alias])) as [H1 H2].
      { apply NoDup_app. split_and!; [done| |apply NoDup_singleton].
        intros x Hx ->%list_elem_of_singleton. done. }
      { rewrite elem_of_app, list_elem_of_singleton. intros [?|?]; done. }
      split; [done|]. intros x. rewrite H2, elem_of_app, list_elem_of_singleton,
        elem_of_cons.
      split.
      * intros [[?| ->]|[? ?]]; [by left|right; split; [done|by left]|].
        right. split; [done|by right].
      * intros [?|[? [->|?]]]; [by left; left|by left; right|by right].
    + assert (bool_decide (alias ≠ EmptyString) && bool_decide (alias ∉ hs) = false)
        as ->.
      { apply andb_false_iff.
        destruct (decide (alias ≠ EmptyString)) as [Ha|Ha].
        - right. apply bool_decide_eq_false. intros Hin. by apply Hno.
        - left. by apply bool_decide_eq_false. }
      destruct (IH hs Hnd Hne) as [H1 H2]. split; [done|].
      intros x. rewrite H2, elem_of_cons. split.
      * intros [?|[? ?]]; [by left|]. right. split; [done|by right].
      * intros [?|[Hx [->|?]]]; [by left| |by right].
        left. apply dec_stable. intros Hin. apply Hno. done.
Qed.

(** X3: the candidate names of an attachment hold no text twice and never
    the empty text; they are the container name, the hostname and the
    aliases, as far as these are not empty. *)
Theorem candidate_names_distinct container_name hostname aliases :
  NoDup (candidate_names container_name hostname aliases)
  ∧ (∀ x, x ∈ candidate_names container_name hostname aliases
          ↔ x ≠ EmptyString
            ∧ (x = container_name ∨ x = hostname ∨ x ∈ aliases)).
Proof.
  unfold candidate_names. cbv zeta.
  set (h0 := if bool_decide (container_name ≠ EmptyString)
             then [container_name] else []).
  set (h1 := if bool_decide (hostname ≠ EmptyString)
                && bool_decide (hostname ≠ container_name)
             then h0 ++ [hostname] else h0).
  assert (NoDup h1 ∧ ∀ x, x ∈ h1 ↔ x ≠ EmptyString ∧ (x = container_name ∨ x = hostname))
    as [Hnd Hin].
  { unfold h1, h0.
    destruct (decide (container_name = EmptyString)) as [->|Hn];
      destruct (decide (hostname = EmptyString)) as [->|Hh].
    - simpl. split; [constructor|]. intros x. rewrite elem_of_nil. naive_solver.
    - rewrite (bool_decide_eq_false_2 (EmptyString ≠ EmptyString)) by (by intros H).
      rewrite !bool_decide_eq_true_2 by done. simpl.
      split; [apply NoDup_singleton|]. intros x. rewrite list_elem_of_singleton.
      naive_solver.
    - rewrite (bool_decide_eq_true_2 (container_name ≠ EmptyString)) by done.
      rewrite (bool_decide_eq_false_2 (EmptyString ≠ EmptyString)) by (by intros H).
      simpl. split; [apply NoDup_singleton|]. intros x.
      rewrite list_elem_of_singleton. naive_solver.
    - rewrite (bool_decide_eq_true_2 (container_name ≠ EmptyString)) by done.
      rewrite (bool_decide_eq_true_2 (hostname ≠ EmptyString)) by done.
      destruct (decide (hostname = container_name)) as [->|Hd].
      + rewrite bool_decide_eq_false_2 by (by intros H). simpl.
        split; [apply NoDup_singleton|]. intros x.
        rewrite list_elem_of_singleton. naive_solver.
      + rewrite bool_decide_eq_true_2 by done. simpl.
        split.
        * apply NoDup_cons. split; [|apply NoDup_singleton].
          rewrite list_elem_of_singleton. congruence.
        * intros x. rewrite elem_of_cons, list_elem_of_singleton. naive_solver. }
  destruct (fold_add_alias_spec aliases h1 Hnd) as [H1 H2].
  { intros H%Hin. naive_solver. }
  split; [done|]. intros x. rewrite H2, Hin. naive_solver.
Qed.

(** *** The names of an entry *)

Lemma all_names_bind domain hostnames :
  all_names domain hostnames
  = hostnames ≫= λ name, [before_dot name; before_dot name +:+ "." +:+ domain].
Proof.
  unfold all_names.
  assert (∀ acc, fold_left (add_names domain) hostnames acc
                 = acc ++ (hostnames ≫= λ name,
                      [before_dot name; before_dot name +:+ "." +:+ domain])) as H.
  { induction hostnames as [|h hs IH]; intros acc.
    - simpl. by rewrite app_nil_r.
    - rewrite bind_cons. simpl. rewrite IH. unfold add_names.
      by rewrite <- app_assoc. }
  by rewrite H.
Qed.

Lemma elem_of_all_names domain hostnames x :
  x ∈ all_names domain hostnames
  ↔ ∃ c, c ∈ hostnames
         ∧ (x = before_dot c ∨ x = before_dot c +:+ "." +:+ domain).
Proof.
  rewrite all_names_bind, list_elem_of_bind. split.
  - intros (c & Hx & Hc). exists c. split; [done|].
    apply elem_of_cons in Hx as [->|Hx]; [by left|].
    apply list_elem_of_singleton in Hx as ->. by right.
  - intros (c & Hc & [->| ->]); exists c; (split; [|done]).
    + by left.
    + right. by left.
Qed.

Lemma before_dot_no_dot s :
  free_of (λ c, bool_decide (c = "."%char)) (before_dot s) = true.
Proof.
  induction s as [|c s IH]; [done|]. simpl.
  case_bool_decide as Hc; [done|]. simpl.
  by rewrite bool_decide_eq_false_2.
Qed.

Lemma str_app_longer s t : t ≠ EmptyString → s ≠ s +:+ t.
Proof.
  intros Ht Heq. apply (f_equal String.length) in Heq.
  rewrite str_length_app in Heq. destruct t; [done|]. simpl in Heq. lia.
Qed.

Lemma two_distinct {A} (l : list A) x y :
  x ∈ l → y ∈ l → x ≠ y → (2 ≤ length l)%nat.
Proof.
  intros Hx Hy Hne. destruct l as [|a [|b l]]; simpl; [|  |lia].
  - by apply not_elem_of_nil in Hx.
  - apply list_elem_of_singleton in Hx, Hy. congruence.
Qed.

(** X5: the names of an entry are the short forms of the candidate names of
    its attachment, each cut before its first dot, and these short forms
    followed by a dot and the domain; a short form holds no dot. *)
Theorem synthesize_names_shape domain containers :
  ∀ e, e ∈ synthesize domain containers →
    ∃ a, a ∈ attachments containers
       ∧ ipAddress e = att_ip a
       ∧ (∀ x, x ∈ names e
              ↔ ∃ c, c ∈ att_candidates a
                     ∧ (x = before_dot c ∨ x = before_dot c +:+ "." +:+ domain))
       ∧ (∀ c, c ∈ att_candidates a →
            free_of (λ ch, bool_decide (ch = "."%char)) (before_dot c) = true
            ∧ before_dot c ∈ names e
            ∧ before_dot c +:+ "." +:+ domain ∈ names e).
Proof.
  rewrite synthesize_attachments.
  destruct (fold_attachments_spec domain (attachments containers) initial)
    as (new & -> & _ & _ & Hnew).
  simpl. intros e (_ & a & Ha & -> & _)%Hnew.
  exists a. simpl. split_and!; [done|done| |].
  - intros x. by rewrite elem_of_unique_names, elem_of_all_names.
  - intros c Hc. split_and!; [apply before_dot_no_dot| |];
      rewrite elem_of_unique_names, elem_of_all_names; exists c; auto.
Qed.

Lemma synthesize_names_shape_witness :
  let c := {| Name := "/web.internal"; Hostname := "web";
              Networks := [("bridge", {| IPAddress := "10.0.0.5";
                                         Aliases := ["api.v2"] |})] |} in
  let e := {| ipAddress := "10.0.0.5";
              names := ["web"; "web.example.com"; "api"; "api.example.com"] |} in
  ∃ a, a ∈ attachments [c]
     ∧ ipAddress e = att_ip a
     ∧ (∀ x, x ∈ names e
            ↔ ∃ n, n ∈ att_candidates a
                   ∧ (x = before_dot n ∨ x = before_dot n +:+ "." +:+ "example.com"))
     ∧ (∀ n, n ∈ att_candidates a →
          free_of (λ ch, bool_decide (ch = "."%char)) (before_dot n) = true
          ∧ before_dot n ∈ names e
          ∧ before_dot n +:+ "." +:+ "example.com" ∈ names e).
Proof.
  intros c e.
  apply (synthesize_names_shape "example.com" [c] e).
  apply list_elem_of_singleton. reflexivity.
Defined.

(** *** Which attachments get an entry *)

Lemma fold_attachments_seen domain l : ∀ st a,
  a ∈ l → att_ip a ≠ EmptyString → att_candidates a ≠ [] →
  att_ip a ∈ seen_ips (fold_left (process_attachment domain) l st).
Proof.
  induction l as [|b l IH]; intros st a Ha Hip Hcand.
  - by apply not_elem_of_nil in Ha.
  - simpl. apply elem_of_cons in Ha as [->|Ha]; [|by apply IH].
    destruct (fold_attachments_spec domain l (process_attachment domain st b))
      as (new & _ & -> & _ & _).
    apply elem_of_union_l.
    destruct (process_attachment_cases domain st b)
      as [[-> [?|[?|?]]]|[-> _]]; [done|done|done|].
    simpl. set_solver.
Qed.

(** X4: every synthesized entry has an address that is not empty and at
    least two names; and every attachment that has an address and a
    candidate name finds its address among the entries. *)
Theorem synthesize_covers domain containers :
  (∀ e, e ∈ synthesize domain containers →
     ipAddress e ≠ EmptyString ∧ (2 ≤ length (names e))%nat)
  ∧ (∀ a, a ∈ attachments containers →
       att_ip a ≠ EmptyString → att_candidates a ≠ [] →
       att_ip a ∈ ipAddress <$> synthesize domain containers).
Proof.
  rewrite synthesize_attachments.
  pose proof (fold_attachments_seen domain (attachments containers) initial) as Hseen.
  destruct (fold_attachments_spec domain (attachments containers) initial)
    as (new & Hl & Hs & _ & Hnew).
  rewrite Hl. simpl. split.
  - intros e (_ & a & Ha & -> & Hip & Hcand)%Hnew. simpl. split; [done|].
    destruct (att_candidates a) as [|c cs] eqn:E; [done|].
    apply (two_distinct _ (before_dot c) (before_dot c +:+ "." +:+ domain)).
    + rewrite elem_of_unique_names, elem_of_all_names. exists c.
      split; [by left|by left].
    + rewrite elem_of_unique_names, elem_of_all_names. exists c.
      split; [by left|by right].
    + by apply str_app_longer.
  - intros a Ha Hip Hcand. specialize (Hseen a Ha Hip Hcand).
    rewrite Hs in Hseen. simpl in Hseen.
    apply elem_of_union in Hseen as [H|H]; [set_solver|].
    by apply elem_of_list_to_set in H.
Qed.

(** *** The order of the entries *)

Lemma fold_attachments_sublist domain l : ∀ st,
  ∃ new,
    host_entries (fold_left (process_attachment domain) l st)
      = host_entries st ++ new
    ∧ sublist new (att_entry domain <$> l).
Proof.
  induction l as [|a l IH]; intros st; simpl.
  - exists []. by rewrite app_nil_r.
  - destruct (process_attachment_cases domain st a) as [[-> _]|[-> _]].
    + destruct (IH st) as (new & H1 & H2). exists new.
      split; [done|]. by apply sublist_cons.
    + destruct (IH {| host_entries := host_entries st ++ [att_entry domain a];
                      seen_ips := seen_ips st ∪ {[ att_ip a ]} |})
        as (new & H1 & H2).
      exists (att_entry domain a :: new). simpl in H1.
      split; [by rewrite H1, <- app_assoc|]. by apply sublist_skip.
Qed.

(** X6: the entries stand in the order of the attachments they come from,
    containers first and networks second; none is moved and there are no
    more entries than attachments. *)
Theorem synthesize_in_order domain containers :
  sublist (synthesize domain containers)
          (att_entry domain <$> attachments containers)
  ∧ (length (synthesize domain containers)
     ≤ length (attachments containers))%nat.
Proof.
  rewrite synthesize_attachments.
  destruct (fold_attachments_sublist domain (attachments containers) initial)
    as (new & -> & Hsub).
  simpl. split; [done|].
  apply sublist_length in Hsub. by rewrite length_fmap in Hsub.
Qed.

(** *** Reading the written lines back *)

Lemma free_of_app p s t : free_of p (s +:+ t) = free_of p s && free_of p t.
Proof.
  induction s as [|c s IH]; [done|]. rewrite str_app_cons. simpl.
  by rewrite IH, andb_assoc.
Qed.

Lemma ends_line_space c : ends_line c = true → is_space c = true.
Proof. by destruct c as [[] [] [] [] [] [] [] []]. Qed.

Lemma free_of_space_line s :
  free_of is_space s = true → free_of ends_line s = true.
Proof.
  induction s as [|c s IH]; [done|]. simpl.
  intros [Hc Hs]%andb_prop. rewrite IH by done.
  destruct (ends_line c) eqn:E; [|done].
  apply ends_line_space in E. by rewrite E in Hc.
Qed.

Lemma is_word_inv s :
  is_word s = true → s ≠ EmptyString ∧ free_of is_space s = true.
Proof.
  unfold is_word. intros [H1 H2]%andb_prop.
  by apply bool_decide_eq_true in H1.
Qed.

Lemma split_ws_aux_word t : ∀ cur rest,
  free_of is_space t = true →
  split_ws_aux cur (t +:+ rest) = split_ws_aux (cur +:+ t) rest.
Proof.
  induction t as [|c t IH]; intros cur rest.
  - intros _. by rewrite str_app_nil_l, str_app_nil_r.
  - intros H. simpl in H. apply andb_prop in H as [Hc Ht].
    rewrite str_app_cons. simpl.
    apply negb_true_iff in Hc. rewrite Hc.
    rewrite IH by done. by rewrite str_app_assoc.
Qed.

Lemma split_ws_aux_blank cur c rest :
  cur ≠ EmptyString → is_space c = true →
  split_ws_aux cur (String c rest) = cur :: split_ws_aux EmptyString rest.
Proof. intros Hcur Hc. simpl. rewrite Hc. by destruct cur. Qed.

Lemma str_join_cons sep x y l :
  str_join sep (x :: y :: l) = x +:+ sep +:+ str_join sep (y :: l).
Proof. reflexivity. Qed.

(** The words of a line of words, closed by a line feed. *)
Lemma split_ws_join ws :
  Forall (λ w, is_word w = true) ws →
  split_ws_aux EmptyString (str_join " " ws +:+ NL) = ws.
Proof.
  induction ws as [|w ws IH]; intros Hws; [done|].
  apply Forall_cons in Hws as [[Hne Hw]%is_word_inv Hws].
  destruct ws as [|w' ws].
  - simpl. rewrite split_ws_aux_word by done. rewrite str_app_nil_l.
    unfold NL. rewrite split_ws_aux_blank by done. done.
  - rewrite str_join_cons, !str_app_assoc.
    rewrite split_ws_aux_word by done. rewrite str_app_nil_l.
    change (" " +:+ str_join " " (w' :: ws) +:+ NL)
      with (String " " (str_join " " (w' :: ws) +:+ NL)).
    rewrite split_ws_aux_blank by done. by rewrite IH.
Qed.

Lemma free_of_join ws :
  Forall (λ w, is_word w = true) ws →
  free_of ends_line (str_join " " ws) = true.
Proof.
  induction ws as [|w ws IH]; intros Hws; [done|].
  apply Forall_cons in Hws as [[Hne Hw]%is_word_inv Hws].
  destruct ws as [|w' ws].
  - simpl. by apply free_of_space_line.
  - rewrite str_join_cons, !free_of_app, IH by done.
    rewrite free_of_space_line by done. done.
Qed.

Lemma render_join e :
  names e ≠ [] → render e = str_join " " (ipAddress e :: names e).
Proof. unfold render. by destruct (names e). Qed.

(** A text without line ends, closed by a line feed, is one line. *)
Lemma splitlines_aux_one s : ∀ cur t,
  free_of ends_line s = true →
  splitlines_aux cur (s +:+ NL +:+ t)
  = (cur +:+ s +:+ NL) :: splitlines t.
Proof.
  induction s as [|c s IH]; intros cur t.
  - intros _. by rewrite !str_app_nil_l.
  - intros H. simpl in H. apply andb_prop in H as [Hc Hs].
    apply negb_true_iff in Hc.
    unfold ends_line in Hc. apply orb_false_iff in Hc as [Hcr Hlb].
    rewrite !str_app_cons. simpl. rewrite Hcr, Hlb.
    rewrite IH by done. by rewrite !str_app_assoc.
Qed.

Lemma splitlines_lines ls :
  Forall (λ l, free_of ends_line l = true) ls →
  splitlines (concat_lines ((λ l, l +:+ NL) <$> ls)) = (λ l, l +:+ NL) <$> ls.
Proof.
  induction ls as [|l ls IH]; intros Hls; [done|].
  apply Forall_cons in Hls as [Hl Hls].
  rewrite fmap_cons, concat_lines_cons, str_app_assoc.
  unfold splitlines at 1. rewrite splitlines_aux_one by done.
  rewrite str_app_nil_l. by rewrite IH.
Qed.

(** X7: entries whose address and names are words (not empty, no white
    space) can be read back from the text written for them: it splits into
    one line per entry, and the words of each line are the address followed
    by the names. *)
Theorem rendered_lines_read_back entries :
  Forall (λ e, is_word (ipAddress e) = true
               ∧ Forall (λ n, is_word n = true) (names e)) entries →
  split_ws <$> splitlines (concat_lines ((λ e, render e +:+ NL) <$> entries))
  = (λ e, ipAddress e :: names e) <$> entries.
Proof.
  intros Hall.
  replace ((λ e, render e +:+ NL) <$> entries)
    with ((λ l, l +:+ NL) <$> (render <$> entries))
    by (by rewrite <- list_fmap_compose).
  rewrite splitlines_lines.
  2:{ apply Forall_fmap. eapply Forall_impl; [exact Hall|].
      intros e [Hip Hn]. simpl. unfold render.
      destruct (is_word_inv _ Hip) as [_ Hfree].
      rewrite !free_of_app, free_of_space_line by done.
      by rewrite free_of_join. }
  rewrite <- !list_fmap_compose.
  apply Forall_fmap_ext. eapply Forall_impl; [exact Hall|].
  intros e [Hip Hn]. simpl. unfold split_ws.
  destruct (names e) as [|n ns] eqn:E.
  - unfold render. rewrite E. simpl. rewrite str_app_nil_r.
    change (ipAddress e +:+ " ") with (str_join " " [ipAddress e] +:+ " ").
    destruct (is_word_inv _ Hip) as [Hne Hfree].
    rewrite str_app_assoc, split_ws_aux_word by done.
    rewrite str_app_nil_l.
    change (" " +:+ NL) with (String " " NL).
    rewrite split_ws_aux_blank by done. done.
  - rewrite render_join by (by rewrite E). rewrite E.
    apply split_ws_join. by constructor.
Qed.

Lemma rendered_lines_read_back_witness :
  let entries :=
    [ {| ipAddress := "10.0.0.5"; names := ["web"; "web.base.domain"] |};
      {| ipAddress := "10.0.0.6"; names := ["db"; "db.base.domain"; "pg"] |} ] in
  split_ws <$> splitlines (concat_lines ((λ e, render e +:+ NL) <$> entries))
  = [ ["10.0.0.5"; "web"; "web.base.domain"];
      ["10.0.0.6"; "db"; "db.base.domain"; "pg"] ].
Proof.
  intros entries.
  apply (rendered_lines_read_back entries).
  repeat constructor.
Defined.

End MoreSynthFacts.

(** ** More on the file writer *)

Section MoreUpdaterFacts.
Import PyStr Synth Updater Aux.

(** *** The inventory reader *)

Lemma get_docker_container_hosts_acts e w :
  ∃ acts,
    get_docker_container_hosts e w
    = (Return (docker_entries e), {| files := files w; log := log w ++ acts |})
    ∧ ((acts = [DockerLs] ∧ docker_entries e = [])
       ∨ ∃ out ids, container_ls (docker e) = Exited 0 out
                    ∧ split_ws (strip out) = ids ∧ ids ≠ []
                    ∧ acts = [DockerLs; DockerInspect ids]).
Proof.
  unfold docker_entries, get_docker_container_hosts, try_except,
    run_docker_ls, run_docker_inspect, json_loads, mbind, M_bind, bind,
    mret, M_ret, ret, raise, record, nothing.
  simpl.
  destruct (container_ls (docker e)) as [rc out|x]; [|eexists; split; [done|by left]].
  simpl. case_bool_decide as Hrc; [eexists; split; [done|by left]|].
  subst rc.
  destruct (split_ws (strip out)) as [|i ids] eqn:Hids;
    [eexists; split; [done|by left]|].
  simpl.
  exists [DockerLs; DockerInspect (i :: ids)].
  split; [|right; by exists out, (i :: ids)].
  destruct (container_inspect (docker e) (i :: ids)) as [rc' out'|x];
    [|by rewrite <- app_assoc].
  simpl. case_bool_decide; [by rewrite <- app_assoc|].
  destruct out'; by rewrite <- app_assoc.
Qed.

(** X8: [get_docker_container_hosts] never raises and changes no file.  It
    lists the containers first and inspects them only when the listing
    succeeded and named at least one container; otherwise it returns no
    entry after that single query. *)
Theorem get_docker_container_hosts_reads_only e w :
  ∃ entries acts,
    get_docker_container_hosts e w
    = (Return entries, {| files := files w; log := log w ++ acts |})
    ∧ ((acts = [DockerLs] ∧ entries = [])
       ∨ ∃ out ids, container_ls (docker e) = Exited 0 out
                    ∧ split_ws (strip out) = ids ∧ ids ≠ []
                    ∧ acts = [DockerLs; DockerInspect ids]).
Proof.
  destruct (get_docker_container_hosts_acts e w) as (acts & Hrun & Hacts).
  by exists (docker_entries e), acts.
Qed.

(** *** Failures of the writer *)

Lemma temp_path_not_hosts name : TEMP_DIR +:+ "/" +:+ name ≠ HOSTS_FILE.
Proof. intros H. vm_compute in H. discriminate. Qed.

Lemma find_index_None p l :
  find_index p l = None ↔ ∀ x, x ∈ l → p x = false.
Proof.
  induction l as [|y l IH]; simpl.
  - split; [|done]. intros _ x Hx. by apply not_elem_of_nil in Hx.
  - destruct (p y) eqn:Hy.
    + split; [done|]. intros H. rewrite (H y) in Hy by (by left). done.
    + destruct (find_index p l) as [i|]; simpl.
      * split; [done|]. intros H.
        assert (@None nat = None) as _ by done.
        destruct IH as [_ IH]. discriminate IH.
        intros x Hx. apply H. by right.
      * split; [|done]. intros _ x [->|Hx]%elem_of_cons; [done|].
        by apply IH.
Qed.

(** X9: on a file that lacks a begin-marker line or an end-marker line the
    writer returns [False] right after reading: no file is changed and the
    engine is not even queried. *)
Theorem update_hosts_file_missing_marker e w contents :
  files w !! HOSTS_FILE = Some contents →
  read_fault e = None →
  (∀ line, line ∈ lines_read contents → is_marker BEGIN_BLOCK line = false)
  ∨ (∀ line, line ∈ lines_read contents → is_marker END_BLOCK line = false) →
  update_hosts_file e w
  = (Return false,
     {| files := files w; log := log w ++ [ReadText HOSTS_FILE] |}).
Proof.
  intros Hfile Hr Hmiss. unfold lines_read in Hmiss.
  unfold update_hosts_file, try_except, read_text, mbind, M_bind, bind,
    mret, M_ret, ret, record.
  rewrite Hr. simpl. rewrite Hfile.
  destruct Hmiss as [H|H]; apply find_index_None in H.
  - by rewrite H.
  - rewrite H. by destruct (find_index (is_marker BEGIN_BLOCK) _).
Qed.

Lemma update_hosts_file_missing_marker_witness :
  let e := {| DOMAIN_BASE := "base.domain";
              docker := {| container_ls := Exited 0 (unlines ["3f2a9c41d0b7"]);
                           container_inspect := λ _, Exited 0 (Inventory []) |};
              temp_name := "tmpk3x9q2vd";
              read_fault := None; append_fault := None; temp_fault := None;
              chmod_fault := None; mv_fault := None |} in
  let w := {| files := {[ HOSTS_FILE :=
                unlines ["127.0.0.1 localhost"; BEGIN_BLOCK; "10.0.0.5 web"] ]};
              log := [] |} in
  update_hosts_file e w
  = (Return false, {| files := files w; log := [ReadText HOSTS_FILE] |}).
Proof.
  intros e w.
  apply (update_hosts_file_missing_marker e w
           (unlines ["127.0.0.1 localhost"; BEGIN_BLOCK; "10.0.0.5 web"])).
  - reflexivity.
  - reflexivity.
  - right. intros line Hline.
    repeat (apply elem_of_cons in Hline as [->|Hline]; [by vm_compute|]).
    by apply not_elem_of_nil in Hline.
Defined.

(** What the writer does, branch by branch. *)
Lemma update_hosts_file_cases e w :
  let temp_path := TEMP_DIR +:+ "/" +:+ temp_name e in
  ∃ ok w', update_hosts_file e w = (Return ok, w')
    ∧ (files w' = files w
       ∨ (∃ new, files w' = <[temp_path := new]> (files w)
                 ∧ ok = false
                 ∧ (chmod_fault e = Some PermissionError
                    ∨ chmod_fault e = None ∧ mv_fault e = Some PermissionError))
       ∨ (∃ new, files w' = delete temp_path (<[temp_path := new]> (files w))
                 ∧ ok = false
                 ∧ (is_Some (chmod_fault e) ∨ is_Some (mv_fault e)))
       ∨ (∃ new, files w'
                 = <[HOSTS_FILE := new]>
                     (delete temp_path (<[temp_path := new]> (files w)))
                 ∧ ok = true ∧ mv_fault e = None)).
Proof.
  intros temp_path.
  unfold update_hosts_file, try_except at 1, read_text, mbind, M_bind, bind, record.
  destruct (read_fault e) as [x|]; [eexists _, _; split; [done|by left]|].
  destruct (files w !! HOSTS_FILE) as [contents|] eqn:Hfile;
    [|eexists _, _; split; [done|by left]].
  destruct (find_index (is_marker BEGIN_BLOCK)
              (splitlines (universal_newlines contents))) as [i|];
    [|eexists _, _; split; [done|by left]].
  destruct (find_index (is_marker END_BLOCK)
              (splitlines (universal_newlines contents))) as [j|];
    [|eexists _, _; split; [done|by left]].
  match goal with |- context [get_docker_container_hosts e ?w0] =>
    destruct (get_docker_container_hosts_run e w0) as [acts ->] end.
  unfold named_temporary_file, try_except, run_chmod, run_mv, unlink,
    mret, M_ret, ret, record.
  destruct (temp_fault e) as [x|]; [eexists _, _; split; [done|by left]|].
  simpl. fold temp_path.
  destruct (chmod_fault e) as [x|] eqn:Hc.
  { destruct x; simpl; eexists _, _;
      (split; [done|]); first
        [ by (right; left; eexists; split_and!; [done|done|by left])
        | by (right; right; left; eexists; split_and!; [done|done|left; eauto]) ]. }
  simpl.
  destruct (mv_fault e) as [x|] eqn:Hm.
  { destruct x; simpl; eexists _, _;
      (split; [done|]); first
        [ by (right; left; eexists; split_and!; [done|done|by right])
        | by (right; right; left; eexists; split_and!; [done|done|right; eauto]) ]. }
  rewrite lookup_insert_eq. simpl.
  eexists _, _. split; [done|]. right; right; right.
  eexists. by split_and!.
Qed.

(** X10: [update_hosts_file] never raises, and whatever happens it leaves
    every file other than the hosts file and its own temporary file as it
    was. *)
Theorem update_hosts_file_frame e w :
  ∃ ok w', update_hosts_file e w = (Return ok, w')
    ∧ ∀ path, path ≠ HOSTS_FILE →
        path ≠ TEMP_DIR +:+ "/" +:+ temp_name e →
        files w' !! path = files w !! path.
Proof.
  destruct (update_hosts_file_cases e w) as (ok & w' & Hrun & Hfiles).
  exists ok, w'. split; [done|]. intros path Hh Ht.
  destruct Hfiles as [->|[(new & -> & _)|[(new & -> & _)|(new & -> & _)]]].
  - done.
  - by rewrite lookup_insert_ne.
  - by rewrite lookup_delete_ne, lookup_insert_ne.
  - by rewrite lookup_insert_ne, lookup_delete_ne, lookup_insert_ne.
Qed.

(** X11: as long as [mv] itself does not fail, a pass that returns [False]
    leaves the hosts file as it was. *)
Theorem update_hosts_file_failure_keeps_hosts e w w' :
  mv_fault e = None →
  update_hosts_file e w = (Return false, w') →
  files w' !! HOSTS_FILE = files w !! HOSTS_FILE.
Proof.
  intros Hm Hrun.
  destruct (update_hosts_file_cases e w) as (ok & w1 & Hrun1 & Hfiles).
  rewrite Hrun in Hrun1. injection Hrun1 as <- <-.
  pose proof (temp_path_not_hosts (temp_name e)) as Hne.
  destruct Hfiles as [->|[(new & -> & _)|[(new & -> & _)|(new & _ & ? & _)]]].
  - done.
  - by rewrite lookup_insert_ne.
  - by rewrite lookup_delete_ne, lookup_insert_ne.
  - done.
Qed.

Lemma update_hosts_file_failure_keeps_hosts_witness :
  let e := {| DOMAIN_BASE := "base.domain";
              docker := {| container_ls := Exited 0 EmptyString;
                           container_inspect := λ _, Exited 0 (Inventory []) |};
              temp_name := "tmpk3x9q2vd";
              read_fault := None; append_fault := None;
              temp_fault := Some OtherError;
              chmod_fault := None; mv_fault := None |} in
  let w := {| files := {[ HOSTS_FILE :=
                unlines ["A"; BEGIN_BLOCK; "old"; END_BLOCK; "B"] ]};
              log := [] |} in
  files (update_hosts_file e w).2 !! HOSTS_FILE
  = Some (unlines ["A"; BEGIN_BLOCK; "old"; END_BLOCK; "B"]).
Proof.
  intros e w.
  apply (update_hosts_file_failure_keeps_hosts e w (update_hosts_file e w).2).
  - reflexivity.
  - reflexivity.
Defined.

(** X12: when [chmod] fails after the temporary file has been written, the
    pass returns [False] with the hosts file untouched; the temporary file
    is removed, except after a [PermissionError], which leaves it behind. *)
Theorem update_hosts_file_chmod_failure e w contents start_idx end_idx x :
  files w !! HOSTS_FILE = Some contents →
  read_fault e = None → temp_fault e = None →
  chmod_fault e = Some x →
  find_index (is_marker BEGIN_BLOCK) (lines_read contents) = Some start_idx →
  find_index (is_marker END_BLOCK) (lines_read contents) = Some end_idx →
  let temp_path := TEMP_DIR +:+ "/" +:+ temp_name e in
  let new_contents :=
    concat_lines (build_new_lines (lines_read contents) start_idx end_idx
                    (docker_entries e)) in
  ∃ w', update_hosts_file e w = (Return false, w')
    ∧ files w' !! HOSTS_FILE = Some contents
    ∧ files w' !! temp_path
      = match x with PermissionError => Some new_contents | _ => None end
    ∧ Forall (λ a, ∀ src dst, a ≠ Mv src dst) (drop (length (log w)) (log w')).
Proof.
  intros Hfile Hr Ht Hc Hs He temp_path new_contents.
  unfold lines_read in *.
  pose proof (temp_path_not_hosts (temp_name e)) as Hne.
  unfold update_hosts_file, try_except, read_text, mbind, M_bind, bind.
  rewrite Hr. simpl. rewrite Hfile, Hs, He.
  destruct (get_docker_container_hosts_acts e (record (ReadText HOSTS_FILE) w))
    as (acts & -> & Hacts).
  unfold named_temporary_file, run_chmod, run_mv, unlink, mret, M_ret, ret, record.
  rewrite Ht, Hc. simpl. fold temp_path. fold new_contents.
  assert (Forall (λ a, ∀ src dst, a ≠ Mv src dst) acts) as Hno.
  { destruct Hacts as [[-> _]|(out & ids & _ & _ & _ & ->)];
      repeat constructor; done. }
  assert (∀ tail, Forall (λ a, ∀ src dst, a ≠ Mv src dst) tail →
            Forall (λ a, ∀ src dst, a ≠ Mv src dst)
              (drop (length (log w))
                 ((((log w ++ [ReadText HOSTS_FILE]) ++ acts)
                   ++ [TempWrite TEMP_DIR temp_path new_contents])
                  ++ [Chmod "644" temp_path] ++ tail))) as Hlog.
  { intros tail Htail. rewrite <- !app_assoc, drop_app_length.
    apply Forall_app. split; [by repeat constructor|].
    apply Forall_app. split; [done|]. simpl. by repeat constructor. }
  destruct x; simpl; eexists; (split; [done|]); simpl;
    rewrite ?lookup_delete_ne, ?lookup_insert_ne, ?lookup_delete_eq,
      ?lookup_insert_eq by done;
    (split_and!; [done|done|]).
  all: try (rewrite <- app_assoc; apply Hlog; by repeat constructor).
  all: try (apply (Hlog []); by constructor).
Qed.

Lemma update_hosts_file_chmod_failure_witness :
  let e := {| DOMAIN_BASE := "base.domain";
              docker := {| container_ls := Exited 0 EmptyString;
                           container_inspect := λ _, Exited 0 (Inventory []) |};
              temp_name := "tmpk3x9q2vd";
              read_fault := None; append_fault := None; temp_fault := None;
              chmod_fault := Some PermissionError; mv_fault := None |} in
  let w := {| files := {[ HOSTS_FILE :=
                unlines ["A"; BEGIN_BLOCK; "old"; END_BLOCK; "B"] ]};
              log := [] |} in
  ∃ w', update_hosts_file e w = (Return false, w')
    ∧ files w' !! HOSTS_FILE
      = Some (unlines ["A"; BEGIN_BLOCK; "old"; END_BLOCK; "B"])
    ∧ files w' !! "/tmp/tmpk3x9q2vd"
      = Some (unlines ["A"; BEGIN_BLOCK; END_BLOCK; "B"]).
Proof.
  intros e w.
  destruct (update_hosts_file_chmod_failure e w
              (unlines ["A"; BEGIN_BLOCK; "old"; END_BLOCK; "B"]) 1 3
              PermissionError)
    as (w' & Hrun & Hhosts & Htemp & _); try reflexivity.
  exists w'. split_and!; [exact Hrun|exact Hhosts|exact Htemp].
Defined.

(** X13: on every successful write the new text is first written in full
    to the temporary file, then [chmod] runs, then [mv]; nothing else happens
    after the queries to the engine, the hosts file ends up with exactly the
    text written to the temporary file, and the temporary file is gone. *)
Theorem update_hosts_file_write_order e w contents start_idx end_idx :
  files w !! HOSTS_FILE = Some contents →
  read_fault e = None → temp_fault e = None →
  chmod_fault e = None → mv_fault e = None →
  find_index (is_marker BEGIN_BLOCK) (lines_read contents) = Some start_idx →
  find_index (is_marker END_BLOCK) (lines_read contents) = Some end_idx →
  let temp_path := TEMP_DIR +:+ "/" +:+ temp_name e in
  let new_contents :=
    concat_lines (build_new_lines (lines_read contents) start_idx end_idx
                    (docker_entries e)) in
  ∃ w' acts,
    update_hosts_file e w = (Return true, w')
    ∧ log w'
      = log w ++ ReadText HOSTS_FILE :: acts
        ++ [ TempWrite TEMP_DIR temp_path new_contents;
             Chmod "644" temp_path;
             Mv temp_path HOSTS_FILE ]
    ∧ Forall (λ a, a = DockerLs ∨ ∃ ids, a = DockerInspect ids) acts
    ∧ files w' !! HOSTS_FILE = Some new_contents
    ∧ files w' !! temp_path = None.
Proof.
  intros Hfile Hr Ht Hc Hm Hs He temp_path new_contents.
  unfold lines_read in *.
  pose proof (temp_path_not_hosts (temp_name e)) as Hne.
  unfold update_hosts_file, try_except, read_text, mbind, M_bind, bind.
  rewrite Hr. simpl. rewrite Hfile, Hs, He.
  destruct (get_docker_container_hosts_acts e (record (ReadText HOSTS_FILE) w))
    as (acts & -> & Hacts).
  unfold named_temporary_file, run_chmod, run_mv, mret, M_ret, ret, record.
  rewrite Ht, Hc, Hm. simpl. fold temp_path. fold new_contents.
  rewrite lookup_insert_eq. simpl.
  eexists _, acts. split; [done|]. simpl. split_and!.
  - reassoc.
  - destruct Hacts as [[-> _]|(out & ids & _ & _ & _ & ->)].
    + apply Forall_singleton. by left.
    + apply Forall_cons. split; [by left|].
      apply Forall_singleton. right. by exists ids.
  - by rewrite lookup_insert_eq.
  - rewrite lookup_insert_ne by done. by rewrite lookup_delete_eq.
Qed.

Lemma update_hosts_file_write_order_witness :
  let e := {| DOMAIN_BASE := "base.domain";
              docker := {| container_ls := Exited 0 EmptyString;
                           container_inspect := λ _, Exited 0 (Inventory []) |};
              temp_name := "tmpk3x9q2vd";
              read_fault := None; append_fault := None; temp_fault := None;
              chmod_fault := None; mv_fault := None |} in
  let w := {| files := {[ HOSTS_FILE :=
                unlines ["A"; BEGIN_BLOCK; "old"; END_BLOCK; "B"] ]};
              log := [] |} in
  ∃ w' acts,
    update_hosts_file e w = (Return true, w')
    ∧ log w'
      = [] ++ ReadText HOSTS_FILE :: acts
        ++ [ TempWrite "/tmp" "/tmp/tmpk3x9q2vd"
               (unlines ["A"; BEGIN_BLOCK; END_BLOCK; "B"]);
             Chmod "644" "/tmp/tmpk3x9q2vd";
             Mv "/tmp/tmpk3x9q2vd" HOSTS_FILE ].
Proof.
  intros e w.
  destruct (update_hosts_file_write_order e w
              (unlines ["A"; BEGIN_BLOCK; "old"; END_BLOCK; "B"]) 1 3)
    as (w' & acts & Hrun & Hlog & _); try reflexivity.
  exists w', acts. split; [exact Hrun|exact Hlog].
Defined.

End MoreUpdaterFacts.

(** ** More on the initialization step *)

Section MoreEnsureFacts.
Import PyStr Synth Updater Aux.

(** What the step does, branch by branch. *)
Lemma ensure_managed_section_exists_cases e w :
  (files w !! HOSTS_FILE = None
   ∧ ensure_managed_section_exists e w = (Return false, w))
  ∨ ∃ contents, files w !! HOSTS_FILE = Some contents
      ∧ let w0 := {| files := files w; log := log w ++ [ReadText HOSTS_FILE] |} in
        let section := NL +:+ BEGIN_BLOCK +:+ NL +:+ END_BLOCK +:+ NL in
        (is_Some (read_fault e)
         ∧ ensure_managed_section_exists e w = (Return false, w0))
        ∨ (read_fault e = None
           ∧ contains BEGIN_BLOCK contents = true
           ∧ contains END_BLOCK contents = true
           ∧ ensure_managed_section_exists e w = (Return true, w0))
        ∨ (read_fault e = None
           ∧ (contains BEGIN_BLOCK contents = false
              ∨ contains END_BLOCK contents = false)
           ∧ is_Some (append_fault e)
           ∧ ensure_managed_section_exists e w = (Return false, w0))
        ∨ (read_fault e = None
           ∧ (contains BEGIN_BLOCK contents = false
              ∨ contains END_BLOCK contents = false)
           ∧ append_fault e = None
           ∧ ensure_managed_section_exists e w
             = (Return true,
                {| files := <[HOSTS_FILE := contents +:+ section]> (files w);
                   log := log w ++ [ReadText HOSTS_FILE;
                                    AppendText HOSTS_FILE section] |})).
Proof.
  unfold ensure_managed_section_exists, try_except, path_exists, read_text,
    append_text, mbind, M_bind, bind, mret, M_ret, ret, record.
  destruct (files w !! HOSTS_FILE) as [contents|] eqn:Hfile.
  2:{ left. split; [done|]. rewrite bool_decide_eq_false_2; [by destruct w|].
      by intros [? ?]. }
  right. exists contents. split; [done|].
  rewrite bool_decide_eq_true_2 by eauto. simpl.
  destruct (read_fault e) as [x|]; [left; split; [eauto|done]|].
  right. rewrite Hfile. simpl.
  rewrite contains_begin_universal, contains_end_universal.
  destruct (contains BEGIN_BLOCK contents) eqn:Hb;
    destruct (contains END_BLOCK contents) eqn:He; simpl.
  - left. done.
  - right. destruct (append_fault e) as [x|]; simpl.
    + left. split_and!; [done|by right|eauto|done].
    + right. rewrite Hfile. simpl. split_and!; [done|by right|done|].
      by rewrite <- app_assoc.
  - right. destruct (append_fault e) as [x|]; simpl.
    + left. split_and!; [done|by left|eauto|done].
    + right. rewrite Hfile. simpl. split_and!; [done|by left|done|].
      by rewrite <- app_assoc.
  - right. destruct (append_fault e) as [x|]; simpl.
    + left. split_and!; [done|by left|eauto|done].
    + right. rewrite Hfile. simpl. split_and!; [done|by left|done|].
      by rewrite <- app_assoc.
Qed.


(** X14: the step is idempotent: after it has succeeded once, a second call
    succeeds too and writes nothing. *)
Theorem ensure_managed_section_exists_idempotent e w w1 :
  ensure_managed_section_exists e w = (Return true, w1) →
  ∃ w2, ensure_managed_section_exists e w1 = (Return true, w2)
        ∧ files w2 = files w1
        ∧ log w2 = log w1 ++ [ReadText HOSTS_FILE].
Proof.
  intros Hrun.
  destruct (ensure_managed_section_exists_cases e w)
    as [[_ H]|(contents & Hfile & Hcases)]; [congruence|].
  cbv zeta in Hcases.
  assert (read_fault e = None
          ∧ ∃ text, files w1 !! HOSTS_FILE = Some text
                    ∧ contains BEGIN_BLOCK text = true
                    ∧ contains END_BLOCK text = true) as (Hr & text & H1 & Hb & He).
  { destruct Hcases
      as [[_ H]|[(Hr & Hb & He & H)|[(_ & _ & _ & H)|(Hr & _ & _ & H)]]];
      rewrite Hrun in H; try done; injection H as ->; (split; [done|]).
    - by exists contents.
    - eexists. simpl. rewrite lookup_insert_eq. split; [done|]. split.
      + rewrite <- (str_app_assoc contents NL). apply contains_app.
      + rewrite <- (str_app_assoc BEGIN_BLOCK NL), <- (str_app_assoc NL),
          <- (str_app_assoc contents).
        apply contains_app. }
  destruct (ensure_managed_section_exists_cases e w1)
    as [[H _]|(text' & Hfile' & Hcases')]; [congruence|].
  cbv zeta in Hcases'. rewrite H1 in Hfile'. injection Hfile' as <-.
  destruct Hcases'
    as [[[? ?] _]|[(_ & _ & _ & ->)|[(_ & [?|?] & _)|(_ & [?|?] & _)]]];
    try congruence.
  by eexists.
Qed.

Lemma ensure_managed_section_exists_idempotent_witness :
  let e := {| DOMAIN_BASE := "base.domain";
              docker := {| container_ls := Exited 0 EmptyString;
                           container_inspect := λ _, Exited 0 (Inventory []) |};
              temp_name := "tmpk3x9q2vd";
              read_fault := None; append_fault := None; temp_fault := None;
              chmod_fault := None; mv_fault := None |} in
  let w := {| files := {[ HOSTS_FILE := unlines ["127.0.0.1 localhost"] ]};
              log := [] |} in
  let w1 := (ensure_managed_section_exists e w).2 in
  ∃ w2, ensure_managed_section_exists e w1 = (Return true, w2)
        ∧ files w2 = files w1
        ∧ log w2 = log w1 ++ [ReadText HOSTS_FILE].
Proof.
  intros e w w1.
  apply (ensure_managed_section_exists_idempotent e w w1).
  reflexivity.
Defined.

(** X16: on a hosts file that holds neither marker text, the initialization
    step followed by a write that meets no fault gives the old text as it is
    read in text mode with the appended line feed, the begin marker, one
    line per entry and the end marker.  For a file without carriage return
    that is the old text itself followed by the line feed and the section. *)
Theorem ensure_then_update e w contents w1 :
  files w !! HOSTS_FILE = Some contents →
  contains BEGIN_BLOCK contents = false →
  contains END_BLOCK contents = false →
  ensure_managed_section_exists e w = (Return true, w1) →
  temp_fault e = None → chmod_fault e = None → mv_fault e = None →
  let section :=
    BEGIN_BLOCK +:+ NL
    +:+ concat_lines ((λ entry, entry +:+ NL) <$> docker_entries e)
    +:+ END_BLOCK +:+ NL in
  ∃ w2, update_hosts_file e w1 = (Return true, w2)
        ∧ files w2 !! HOSTS_FILE
          = Some (universal_newlines (contents +:+ NL) +:+ section)
        ∧ (free_of is_cr contents = true →
           files w2 !! HOSTS_FILE = Some (contents +:+ NL +:+ section)).
Proof.
  intros Hfile Hb He Hrun Ht Hc Hm section.
  destruct (ensure_managed_section_exists_cases e w)
    as [[H _]|(contents' & Hfile' & Hcases)]; [congruence|].
  rewrite Hfile in Hfile'. injection Hfile' as <-. cbv zeta in Hcases.
  destruct Hcases
    as [[_ H]|[(_ & ? & _)|[(_ & _ & _ & H)|(Hr & _ & _ & H)]]];
    try congruence.
  rewrite Hrun in H. injection H as ->.
  set (old := lines_read (contents +:+ NL)).
  pose proof (lines_read_section contents) as Hlines. fold old in Hlines.
  assert (∀ line, line ∈ old → is_marker BEGIN_BLOCK line = false) as Hob.
  { apply count_markers_zero.
    unfold old. rewrite count_markers_read_newline by done.
    destruct (count_markers BEGIN_BLOCK (lines_read contents)) eqn:E; [done|].
    destruct (count_markers_pos BEGIN_BLOCK (lines_read contents))
      as (l & Hl & Hml); [lia|].
    apply (marker_line_contains _ (universal_newlines contents)) in Hml;
      [|exact Hl].
    rewrite contains_begin_universal in Hml. congruence. }
  assert (∀ line, line ∈ old → is_marker END_BLOCK line = false) as Hoe.
  { apply count_markers_zero.
    unfold old. rewrite count_markers_read_newline by done.
    destruct (count_markers END_BLOCK (lines_read contents)) eqn:E; [done|].
    destruct (count_markers_pos END_BLOCK (lines_read contents))
      as (l & Hl & Hml); [lia|].
    apply (marker_line_contains _ (universal_newlines contents)) in Hml;
      [|exact Hl].
    rewrite contains_end_universal in Hml. congruence. }
  destruct (update_hosts_file_run e
              {| files := <[HOSTS_FILE := contents +:+ NL +:+ BEGIN_BLOCK +:+ NL
                                          +:+ END_BLOCK +:+ NL]> (files w);
                 log := log w ++ [ReadText HOSTS_FILE;
                                  AppendText HOSTS_FILE
                                    (NL +:+ BEGIN_BLOCK +:+ NL +:+ END_BLOCK +:+ NL)] |}
              (contents +:+ NL +:+ BEGIN_BLOCK +:+ NL +:+ END_BLOCK +:+ NL)
              (length old) (length (old ++ [BEGIN_BLOCK +:+ NL])))
    as (w2 & Hrun2 & Hnew); try done.
  - simpl. rewrite <- !str_app_assoc. by rewrite lookup_insert_eq.
  - rewrite Hlines. by apply find_index_app.
  - rewrite Hlines.
    change (old ++ [BEGIN_BLOCK +:+ NL; END_BLOCK +:+ NL])
      with (old ++ [BEGIN_BLOCK +:+ NL] ++ [END_BLOCK +:+ NL]).
    rewrite app_assoc. apply find_index_app; [|done].
    intros y [Hy| ->%list_elem_of_singleton]%elem_of_app; [by apply Hoe|done].
  - assert (files w2 !! HOSTS_FILE
            = Some (universal_newlines (contents +:+ NL) +:+ section)) as Hres.
    { rewrite Hnew. f_equal.
      unfold build_new_lines. rewrite Hlines.
      change (old ++ [BEGIN_BLOCK +:+ NL; END_BLOCK +:+ NL])
        with (old ++ [BEGIN_BLOCK +:+ NL] ++ [END_BLOCK +:+ NL]).
      rewrite (app_assoc old [BEGIN_BLOCK +:+ NL] [END_BLOCK +:+ NL]).
      rewrite (take_app_length' (old ++ [BEGIN_BLOCK +:+ NL]))
        by (rewrite length_app; simpl; lia).
      rewrite drop_app_length.
      rewrite !concat_lines_app. unfold old, lines_read.
      rewrite concat_splitlines. unfold section.
      simpl. by rewrite !str_app_nil_r, !str_app_assoc. }
    exists w2. split_and!; [done|done|].
    intros Hfree. rewrite Hres. f_equal.
    rewrite <- (str_app_assoc contents NL section). f_equal.
    apply universal_newlines_keeps.
    rewrite free_of_app, Hfree. done.
Qed.

Lemma ensure_then_update_witness :
  let c := {| Name := "/web"; Hostname := "web";
              Networks := [("bridge", {| IPAddress := "10.0.0.5"; Aliases := [] |})] |} in
  let e := {| DOMAIN_BASE := "base.domain";
              docker := {| container_ls := Exited 0 (unlines ["3f2a9c41d0b7"]);
                           container_inspect := λ _, Exited 0 (Inventory [c]) |};
              temp_name := "tmpk3x9q2vd";
              read_fault := None; append_fault := None; temp_fault := None;
              chmod_fault := None; mv_fault := None |} in
  let w := {| files := {[ HOSTS_FILE := unlines ["127.0.0.1 localhost"] ]};
              log := [] |} in
  ∃ w2, update_hosts_file e (ensure_managed_section_exists e w).2 = (Return true, w2)
        ∧ files w2 !! HOSTS_FILE
          = Some (unlines ["127.0.0.1 localhost"; EmptyString; BEGIN_BLOCK;
                           "10.0.0.5 web web.base.domain"; END_BLOCK]).
Proof.
  intros c e w.
  destruct (ensure_then_update e w (unlines ["127.0.0.1 localhost"])
              (ensure_managed_section_exists e w).2)
    as (w2 & Hrun & Hnew & _); try reflexivity.
  exists w2. split; [exact Hrun|exact Hnew].
Defined.

End MoreEnsureFacts.

(** ** More on the coordinator *)

Section MoreCoordinatorFacts.
Import Coordinator Aux.

Lemma step_order s ev s' :
  step s ev = Some s' →
  started s' ++ waiters s'
  = (started s ++ waiters s)
    ++ match ev with Trigger t => [t] | _ => [] end.
Proof.
  destruct ev as [|t|t|t]; simpl.
  - intros [= <-]. simpl. by rewrite app_nil_r.
  - destruct (_ || _); [done|].
    destruct (take_line t s) as [s1|] eqn:E1; [|done]. simpl.
    intros [= <-].
    apply take_line_fields in E1 as (_ & Hw & _ & Hs & _).
    destruct (acquire_cases t s1) as [(_ & Hnil & ->)|(_ & _ & Ew & _ & Es & _)].
    + simpl. rewrite <- Hw, <- Hs, Hnil. by rewrite !app_nil_r.
    + rewrite Ew, Es, Hw, Hs. by rewrite app_assoc.
  - destruct (locked s); [done|].
    destruct (waiters s) as [|w ws]; [done|].
    case_bool_decide as Hw; [|done]. subst w. intros [= <-]. simpl.
    rewrite app_nil_r. by rewrite <- app_assoc.
  - case_bool_decide; [|done]. intros [= <-]. simpl. by rewrite app_nil_r.
Qed.

Lemma run_order evs : ∀ s s',
  run s evs = Some s' →
  started s' ++ waiters s' = (started s ++ waiters s) ++ triggered evs.
Proof.
  induction evs as [|ev evs IH]; intros s s'; simpl.
  - intros [= <-]. by rewrite app_nil_r.
  - destruct (step s ev) as [s1|] eqn:E; [|done].
    intros H%IH. rewrite H. apply step_order in E. rewrite E.
    rewrite <- app_assoc. f_equal. by destruct ev.
Qed.

(** X17: the lock serves its callers first come, first served: the
    pipelines started so far, followed by the callers still waiting, are the
    callers of [update_hosts_file_async] in the order of their calls. *)
Theorem callers_served_in_order evs s :
  run idle evs = Some s →
  started s ++ waiters s = triggered evs.
Proof. intros H%run_order. by rewrite H. Qed.

Lemma callers_served_in_order_witness :
  ∃ s, run idle [Line; Trigger EventsTask; Trigger PeriodicTask; Line;
                 Finish EventsTask; Trigger EventsTask; Resume PeriodicTask]
       = Some s
       ∧ started s ++ waiters s = [EventsTask; PeriodicTask; EventsTask]
       ∧ started s = [EventsTask; PeriodicTask].
Proof.
  eexists. split; [reflexivity|]. split; [|reflexivity].
  apply (callers_served_in_order
           [Line; Trigger EventsTask; Trigger PeriodicTask; Line;
            Finish EventsTask; Trigger EventsTask; Resume PeriodicTask]).
  reflexivity.
Defined.

End MoreCoordinatorFacts.

(** ** Start-up *)

Section StartupFacts.
Import PyStr Startup.

Lemma rstrip_rstrip p s :
  rstrip_with p (rstrip_with p s) = rstrip_with p s.
Proof.
  induction s as [|c s IH]; [done|]. simpl.
  destruct (rstrip_with p s) as [|y r] eqn:E.
  - destruct (p c) eqn:Hc; [done|]. simpl. by rewrite Hc.
  - simpl. simpl in IH. by rewrite IH.
Qed.

Lemma lstrip_rstrip_lstrip p s :
  lstrip_with p (rstrip_with p (lstrip_with p s))
  = rstrip_with p (lstrip_with p s).
Proof.
  induction s as [|c s IH]; [done|]. simpl.
  destruct (p c) eqn:Hc; [done|]. simpl.
  destruct (rstrip_with p s); simpl; rewrite ?Hc; simpl; by rewrite ?Hc.
Qed.

Lemma strip_strip s : strip (strip s) = strip s.
Proof.
  unfold strip. by rewrite lstrip_rstrip_lstrip, rstrip_rstrip.
Qed.

(** X19: the domain base is the command-line value when that is not empty,
    else the environment value when that is not empty, else [base.domain];
    either value is taken without its surrounding white space, so the result
    is always stripped, and a command-line value of white space only gives
    the empty domain whatever the environment says. *)
Theorem resolve_domain_priority :
  (∀ domain_arg env_var,
     strip (resolve_domain domain_arg env_var) = resolve_domain domain_arg env_var)
  ∧ (∀ d env_var, d ≠ EmptyString →
       resolve_domain (Some d) env_var = strip d)
  ∧ (∀ v, v ≠ EmptyString →
       resolve_domain None (Some v) = strip v
       ∧ resolve_domain (Some EmptyString) (Some v) = strip v)
  ∧ (∀ d env_var, d ≠ EmptyString → Aux.free_of (λ c, negb (is_space c)) d = true →
       resolve_domain (Some d) env_var = EmptyString)
  ∧ resolve_domain None None = "base.domain"
  ∧ resolve_domain (Some EmptyString) (Some EmptyString) = "base.domain".
Proof.
  split_and!.
  - intros [[|c d]|] [[|c' v]|]; simpl; by rewrite ?strip_strip.
  - intros [|c d] env_var Hd; done.
  - intros [|c v] Hv; done.
  - intros [|c d] env_var Hd Hws; [done|]. simpl.
    assert (∀ t, Aux.free_of (λ c, negb (is_space c)) t = true →
                 lstrip_with is_space t = EmptyString) as Hall.
    { induction t as [|a t IH]; [done|]. simpl.
      intros [Ha Ht]%andb_prop. apply negb_true_iff, negb_false_iff in Ha.
      rewrite Ha. by apply IH. }
    unfold strip. by rewrite Hall.
  - done.
  - done.
Qed.

End StartupFacts.

(** ** The validation script *)

Section ValidationFacts.
Import PyStr Validation.

Lemma contains_mid a b c s :
  contains (a +:+ b +:+ c) s = true → contains b s = true.
Proof.
  intros (x & y & ->)%contains_split.
  rewrite !str_app_assoc, <- (str_app_assoc x a). apply contains_app.
Qed.

(** X20: the check of the hosts entries passes as soon as three of its four
    names occur in the output, and the domain counts as a name: entries for
    two of the three test containers are enough, and a pass means no more
    than that at least two container names were found. *)
Theorem verify_hosts_entries_lenient :
  (∀ output, verify_hosts_entries false output = false)
  ∧ (∀ output,
       contains "test-nginx.base.domain" output = true →
       contains "test-redis.base.domain" output = true →
       verify_hosts_entries true output = true)
  ∧ (∀ ok output, verify_hosts_entries ok output = true →
       ok = true
       ∧ (contains "test-nginx" output && contains "test-redis" output
          || contains "test-nginx" output && contains "test-postgres" output
          || contains "test-redis" output && contains "test-postgres" output
          = true)).
Proof.
  split_and!.
  - done.
  - intros output Hn Hr.
    pose proof (contains_mid EmptyString "test-nginx" ".base.domain" output Hn) as H1.
    pose proof (contains_mid EmptyString "test-redis" ".base.domain" output Hr) as H2.
    pose proof (contains_mid "test-nginx." "base.domain" EmptyString output) as H3.
    unfold verify_hosts_entries, test_names. simpl.
    rewrite !filter_cons, filter_nil, H1, H2, H3 by done. simpl.
    by destruct (decide (contains "test-postgres" output = true)).
  - intros [] output; [|done].
    unfold verify_hosts_entries, test_names. simpl.
    rewrite !filter_cons, filter_nil.
    destruct (contains "test-nginx" output);
      destruct (contains "test-redis" output);
      destruct (contains "test-postgres" output);
      destruct (contains "base.domain" output); simpl; done.
Qed.

End ValidationFacts.
